(** * Gesture classifier and formation controller

    A shallow embedding of
      - [src/services/hand-recognition.service.ts]  (module [HandRecognition])
      - [src/components/visualizer/visualizer.component.ts] (module [Visualizer])

    JavaScript numbers are kept abstract behind the class [JsNumber].  The
    control-flow results hold for every arithmetic, binary64 included.
    Ranges and distances are stated in the instance of exact real numbers,
    which leaves the rounding of binary64 out; where rounding changes the
    answer the instance of IEEE-754 binary64 numbers, in which concrete
    inputs are run, says so. *)

From Stdlib Require Import ZArith QArith Qabs List Bool Lia Reals Lra.
From Stdlib Require Import Floats Uint63.
Import ListNotations.
Close Scope Q_scope.

Set Implicit Arguments.

(** ** JavaScript values *)

Module Js.

(** The [number] type with the operators the sources use. *)
Class JsNumber (num : Type) : Type := {
  num_of_Z : Z -> num;
  num_add : num -> num -> num;
  num_sub : num -> num -> num;
  num_mul : num -> num -> num;
  num_div : num -> num -> num;
  num_neg : num -> num;
  num_ltb : num -> num -> bool
}.

(** [Math.sqrt] and [Math.pow]. *)
Class MathAlg (num : Type) : Type := {
  Math_sqrt : num -> num;
  Math_pow : num -> num -> num
}.

(** [Math.PI], [Math.cos], [Math.sin], [Math.acos], [Math.floor]. *)
Class MathTrig (num : Type) : Type := {
  Math_PI : num;
  Math_cos : num -> num;
  Math_sin : num -> num;
  Math_acos : num -> num;
  Math_floor : num -> num
}.

(** A decimal literal [n/d] of the source text.  On binary64 the correctly
    rounded quotient of two exactly representable integers is the double
    nearest to the rational, which is how a literal is read. *)
Definition lit {num} `{JsNumber num} (q : Q) : num :=
  num_div (num_of_Z (Qnum q)) (num_of_Z (Zpos (Qden q))).

(** A loop counter used as a number. *)
Definition of_nat {num} `{JsNumber num} (i : nat) : num :=
  num_of_Z (Z.of_nat i).

(** *** Completion of a method body: normal, or a [TypeError] raised by a
    property read on [undefined].  Both keep the store, since the fields
    written before the throw stay written. *)
Inductive result (St A : Type) : Type :=
| Ok (a : A) (s : St)
| Throw (s : St).
Arguments Ok {St A} a s.
Arguments Throw {St A} s.

Definition M (St A : Type) : Type := St -> result St A.

Definition ret {St A} (a : A) : M St A := fun s => Ok a s.

Definition bind {St A B} (m : M St A) (k : A -> M St B) : M St B :=
  fun s => match m s with
           | Ok a s' => k a s'
           | Throw s' => Throw s'
           end.

Definition throw {St A} : M St A := fun s => Throw s.

Definition get {St} : M St St := fun s => Ok s s.

Definition modify {St} (f : St -> St) : M St unit := fun s => Ok tt (f s).

(** A value that is [undefined] ([None]) throws when a property of it is
    read or when it is passed where its fields are read. *)
Definition defined {St A} (o : option A) : M St A :=
  match o with
  | Some a => ret a
  | None => throw
  end.

(** The store a completion leaves behind. *)
Definition store {St A} (r : result St A) : St :=
  match r with
  | Ok _ s => s
  | Throw s => s
  end.

(** [for (let i = from; i < from + count; i++) body(i)] *)
Fixpoint for_from {St} (from count : nat) (body : nat -> M St unit) : M St unit :=
  match count with
  | O => ret tt
  | S count' =>
      bind (body from) (fun _ => for_from (S from) count' body)
  end.

Definition for_ {St} (n : nat) (body : nat -> M St unit) : M St unit :=
  for_from 0 n body.

End Js.

Import Js.

Declare Scope js_scope.
Delimit Scope js_scope with js.
Infix "+" := num_add : js_scope.
Infix "-" := num_sub : js_scope.
Infix "*" := num_mul : js_scope.
Infix "/" := num_div : js_scope.
Infix "<?" := num_ltb : js_scope.
Notation "- a" := (num_neg a) : js_scope.
Notation "x <- m ;; k" := (bind m (fun x => k))
  (at level 61, m at next level, right associativity) : js_scope.
Notation "m ;; k" := (bind m (fun _ => k))
  (at level 61, right associativity) : js_scope.
Arguments lit {num _} q%_Q.

(** *** The two arithmetics used below *)

(** IEEE-754 binary64, the arithmetic of the JavaScript engine. *)
Module Binary64.

Definition of_Z (z : Z) : float :=
  match z with
  | Zneg p => PrimFloat.opp (PrimFloat.of_uint63 (Uint63.of_Z (Zpos p)))
  | _ => PrimFloat.of_uint63 (Uint63.of_Z z)
  end.

#[export] Instance number : JsNumber float := {|
  num_of_Z := of_Z;
  num_add := PrimFloat.add;
  num_sub := PrimFloat.sub;
  num_mul := PrimFloat.mul;
  num_div := PrimFloat.div;
  num_neg := PrimFloat.opp;
  num_ltb := PrimFloat.ltb
|}.

(** [Math.pow] at the exponents the classifier uses (0, 1 and 2), where the
    result is the correctly rounded product. *)
Definition pow (b e : float) : float :=
  if PrimFloat.eqb e 2%float then PrimFloat.mul b b
  else if PrimFloat.eqb e 1%float then b
  else if PrimFloat.eqb e 0%float then 1%float
  else PrimFloat.nan.

#[export] Instance alg : MathAlg float := {|
  Math_sqrt := PrimFloat.sqrt;
  Math_pow := pow
|}.


End Binary64.

(** Exact real numbers: the arithmetic without rounding.  It is not the
    arithmetic of the engine; a result stated in it is a result about the
    formulas of the source, and carries over to binary64 only where
    rounding cannot cross the bound stated. *)
Module Exact.

Definition ltb (a b : R) : bool := if Rlt_dec a b then true else false.

#[export] Instance number : JsNumber R := {|
  num_of_Z := IZR;
  num_add := Rplus;
  num_sub := Rminus;
  num_mul := Rmult;
  num_div := Rdiv;
  num_neg := Ropp;
  num_ltb := ltb
|}.

(** [Math.pow] on the reals: an integer exponent by repeated multiplication
    or division, any other through [exp] and [ln]. *)
Definition pow (b e : R) : R :=
  if Req_EM_T e (IZR (Int_part e)) then powerRZ b (Int_part e)
  else Rpower b e.

#[export] Instance alg : MathAlg R := {|
  Math_sqrt := R_sqrt.sqrt;
  Math_pow := pow
|}.

#[export] Instance trig : MathTrig R := {|
  Math_PI := PI;
  Math_cos := cos;
  Math_sin := sin;
  Math_acos := acos;
  Math_floor := fun x => IZR (Int_part x)
|}.

End Exact.

(** ** hand-recognition.service.ts *)

Module HandRecognition.

Inductive GestureType : Type := NONE | OPEN_PALM | FIST | PINCH.

Definition GestureType_eqb (a b : GestureType) : bool :=
  match a, b with
  | NONE, NONE | OPEN_PALM, OPEN_PALM | FIST, FIST | PINCH, PINCH => true
  | _, _ => false
  end.

(** An Angular [WritableSignal]: [set] with a value equal to the current one
    does nothing; otherwise it stores the value and bumps the version that
    dependent effects compare against. *)
Record WritableSignal (A : Type) : Type := {
  value : A;
  version : nat
}.

Definition signal {A} (a : A) : WritableSignal A :=
  {| value := a; version := 0 |}.

Definition signal_set (g : GestureType) (sg : WritableSignal GestureType)
  : WritableSignal GestureType :=
  if GestureType_eqb (value sg) g then sg
  else {| value := g; version := S (version sg) |}.

Section Service.
Context {num : Type} `{JsNumber num} `{MathAlg num}.
Local Open Scope js_scope.

Record NormalizedLandmark : Type := { x : num; y : num; z : num }.

Record Point : Type := { px : num; py : num }.

(** The fields of [HandRecognitionService] that [analyzeGesture] writes.
    [pinchCenter] has no dependants, so only its value is kept. *)
Record Service : Type := {
  currentGesture : WritableSignal GestureType;
  pinchCenter : option Point
}.

Definition initial : Service :=
  {| currentGesture := signal NONE; pinchCenter := None |}.

Definition currentGesture_set (g : GestureType) : M Service unit :=
  modify (fun s => {| currentGesture := signal_set g (currentGesture s);
                      pinchCenter := pinchCenter s |}).

Definition pinchCenter_set (c : option Point) : M Service unit :=
  modify (fun s => {| currentGesture := currentGesture s;
                      pinchCenter := c |}).

(** [Math.sqrt(Math.pow(p1.x - p2.x, 2) + Math.pow(p1.y - p2.y, 2))] *)
Definition planar (p1 p2 : NormalizedLandmark) : num :=
  Math_sqrt (Math_pow (x p1 - x p2) (lit 2) + Math_pow (y p1 - y p2) (lit 2)).

(** [dist]: its arguments come from [landmarks[i]] and may be
    [undefined], in which case reading [.x] throws. *)
Definition dist (p1 p2 : option NormalizedLandmark) : option num :=
  match p1, p2 with
  | Some a, Some b => Some (planar a b)
  | _, _ => None
  end.

Definition midpoint (t i : NormalizedLandmark) : Point :=
  {| px := (x t + x i) / lit 2; py := (y t + y i) / lit 2 |}.

Section Frame.
Variable landmarks : list NormalizedLandmark.

Definition isFingerClosed (tipIdx pipIdx : nat) : option bool :=
  let wrist := nth_error landmarks 0 in
  match dist (nth_error landmarks tipIdx) wrist,
        dist (nth_error landmarks pipIdx) wrist with
  | Some a, Some b => Some (a <? b)
  | _, _ => None
  end.

Definition analyzeGesture : M Service unit :=
  let thumbTip := nth_error landmarks 4 in
  let indexTip := nth_error landmarks 8 in
  pinchDist <- defined (dist thumbTip indexTip) ;;
  let isPinch := pinchDist <? lit 0.05 in
  if isPinch then
    currentGesture_set PINCH ;;
    t <- defined thumbTip ;;
    i <- defined indexTip ;;
    pinchCenter_set (Some (midpoint t i))
  else
    pinchCenter_set None ;;
    indexClosed <- defined (isFingerClosed 8 6) ;;
    middleClosed <- defined (isFingerClosed 12 10) ;;
    ringClosed <- defined (isFingerClosed 16 14) ;;
    pinkyClosed <- defined (isFingerClosed 20 18) ;;
    if indexClosed && middleClosed && ringClosed && pinkyClosed then
      currentGesture_set FIST
    else if negb indexClosed && negb middleClosed && negb ringClosed
            && negb pinkyClosed && negb isPinch then
      currentGesture_set OPEN_PALM
    else
      ret tt.
End Frame.

(** One detection cycle.  [ready] is
    [this.handLandmarker && video.currentTime !== 0]; [hands] is
    [results.landmarks]. *)
Definition predictWebcam (ready : bool)
           (hands : list (list NormalizedLandmark)) : M Service unit :=
  if ready then
    match hands with
    | landmarks :: _ => analyzeGesture landmarks
    | [] => ret tt
    end
  else ret tt.

(** The cycles of a session.  [requestAnimationFrame(predictWebcam)] is the
    last statement of a cycle, so a cycle that throws schedules no
    further one. *)
Fixpoint session (cycles : list (bool * list (list NormalizedLandmark)))
  : M Service unit :=
  match cycles with
  | [] => ret tt
  | (ready, hands) :: rest => predictWebcam ready hands ;; session rest
  end.

End Service.
Arguments NormalizedLandmark num : clear implicits.
Arguments Point num : clear implicits.
Arguments Service num : clear implicits.

End HandRecognition.

(** ** three.js, as far as the component uses it *)

Module Vector3.
Section Vector3.
Context {num : Type} `{JsNumber num}.
Local Open Scope js_scope.

Record t : Type := make { x : num; y : num; z : num }.

(** [this.x += (v.x - this.x) * alpha], and the same on y and z. *)
Definition lerp (this v : t) (alpha : num) : t :=
  {| x := x this + (x v - x this) * alpha;
     y := y this + (y v - y this) * alpha;
     z := z this + (z v - z this) * alpha |}.

End Vector3.
Arguments t num : clear implicits.
End Vector3.

Module Euler.
Section Euler.
Context {num : Type}.

Record t : Type := make { x : num; y : num; z : num }.

End Euler.
Arguments t num : clear implicits.
End Euler.

(** What the component takes from its host.  [Math_random n] is the value
    the component's own [n]-th call of [Math.random()] returns; the calls
    three.js makes inside its constructors (for object identifiers) are the
    host's business and are not counted.  [Object3D_lookAt] is the rotation
    three.js gives a parentless [Object3D] placed at a position after
    [lookAt(target)]. *)
Class Host (num : Type) : Type := {
  Math_random : nat -> num;
  Object3D_lookAt : Vector3.t num -> Vector3.t num -> Euler.t num
}.

(** A host over the reals whose random numbers are all 1/2 and whose
    [lookAt] leaves the object unrotated; concrete components are run in
    it. *)
Module Still.

#[export] Instance host : Host R := {|
  Math_random := fun _ => (1 / 2)%R;
  Object3D_lookAt := fun _ _ => Euler.make 0%R 0%R 0%R
|}.

End Still.

(** ** visualizer.component.ts *)

Module Visualizer.
Import HandRecognition.

Section Component.
Context {num : Type} `{JsNumber num} `{MathAlg num} `{MathTrig num} `{Host num}.
Local Open Scope js_scope.

Record UserData : Type := {
  targetPosition : option (Vector3.t num);
  targetRotation : Euler.t num
}.

Record Mesh : Type := {
  position : Vector3.t num;
  rotation : Euler.t num;
  userData : UserData
}.

Record Targets : Type := {
  scatter : list (Vector3.t num);
  tree : list (Vector3.t num);
  focus : list (Vector3.t num)
}.

(** The fields of [VisualizerComponent] the formations and the motion use;
    [drawn] counts the calls of [Math.random()] the component's own code has
    made so far (not those inside three.js), [camera] is
    [this.camera.position]. *)
Record Component : Type := {
  meshes : list Mesh;
  imageCount : nat;
  targets : Targets;
  camera : Vector3.t num;
  drawn : nat
}.

(** The component after its field initialisers and [initThree]. *)
Definition fresh (count : nat) (seed : nat) : Component :=
  {| meshes := [];
     imageCount := count;
     targets := {| scatter := []; tree := []; focus := [] |};
     camera := Vector3.make (lit 0) (lit 0) (lit 2500);
     drawn := seed |}.

Definition with_meshes (ms : list Mesh) (c : Component) : Component :=
  {| meshes := ms; imageCount := imageCount c; targets := targets c;
     camera := camera c; drawn := drawn c |}.

Definition with_targets (ts : Targets) (c : Component) : Component :=
  {| meshes := meshes c; imageCount := imageCount c; targets := ts;
     camera := camera c; drawn := drawn c |}.

Definition with_camera (p : Vector3.t num) (c : Component) : Component :=
  {| meshes := meshes c; imageCount := imageCount c; targets := targets c;
     camera := p; drawn := drawn c |}.

(** [Math.random()], called by the component. *)
Definition random : M Component num :=
  fun c => Ok (Math_random (drawn c))
              {| meshes := meshes c; imageCount := imageCount c;
                 targets := targets c; camera := camera c;
                 drawn := S (drawn c) |}.

Fixpoint replace_nth {A} (i : nat) (a : A) (l : list A) : list A :=
  match l, i with
  | [], _ => []
  | _ :: l', O => a :: l'
  | b :: l', S i' => b :: replace_nth i' a l'
  end.

(** [this.meshes[i]] *)
Definition mesh (i : nat) : M Component Mesh :=
  c <- get ;; defined (nth_error (meshes c) i).

(** A write to fields of [this.meshes[i]]. *)
Definition mesh_update (i : nat) (f : Mesh -> Mesh) : M Component unit :=
  m <- mesh i ;;
  modify (fun c => with_meshes (replace_nth i (f m) (meshes c)) c).

Definition push_scatter (p : Vector3.t num) : M Component unit :=
  modify (fun c => with_targets
    {| scatter := scatter (targets c) ++ [p]; tree := tree (targets c);
       focus := focus (targets c) |} c).

Definition push_tree (p : Vector3.t num) : M Component unit :=
  modify (fun c => with_targets
    {| scatter := scatter (targets c); tree := tree (targets c) ++ [p];
       focus := focus (targets c) |} c).

Definition push_focus (p : Vector3.t num) : M Component unit :=
  modify (fun c => with_targets
    {| scatter := scatter (targets c); tree := tree (targets c);
       focus := focus (targets c) ++ [p] |} c).

Definition push_mesh (m : Mesh) : M Component unit :=
  modify (fun c => with_meshes (meshes c ++ [m]) c).

(** *** createObjects

    The geometry, the textures and the materials are left to the renderer;
    the five calls of [Math.random()] per object are those of the source
    text, not those the three.js constructors make for identifiers. *)

(** [Math.random() * 4000 - 2000] *)
Definition scatterCoordinate : M Component num :=
  r <- random ;; ret (r * lit 4000 - lit 2000).

Definition scatterLoop (count : nat) : M Component unit :=
  for_ count (fun _ =>
    x <- scatterCoordinate ;;
    y <- scatterCoordinate ;;
    z <- scatterCoordinate ;;
    push_scatter (Vector3.make x y z)).

Definition treePoint (count i : nat) : Vector3.t num :=
  let phi := Math_acos (- lit 1 + (lit 2 * of_nat i) / of_nat count) in
  let theta := Math_sqrt (of_nat count * Math_PI) * phi in
  let r := lit 800 in
  let x := r * Math_cos theta * Math_sin phi in
  let y := of_nat i * lit 20 - lit 500 in
  let z := r * Math_sin theta * Math_sin phi in
  Vector3.make x y z.

Definition treeLoop (count : nat) : M Component unit :=
  for_ count (fun i => push_tree (treePoint count i)).

Definition focusPoint (i : nat) : Vector3.t num :=
  let theta := of_nat i * lit 0.175 + Math_PI in
  let y := - (Math_floor (of_nat i / lit 10) * lit 180) + lit 400 in
  let radius := lit 1200 in
  let x := Math_cos theta * radius in
  let z := Math_sin theta * radius in
  Vector3.make x y z.

Definition focusLoop (count : nat) : M Component unit :=
  for_ count (fun i => push_focus (focusPoint i)).

Definition meshLoop (count : nat) : M Component unit :=
  for_ count (fun i =>
    c <- get ;;
    start <- defined (nth_error (scatter (targets c)) i) ;;
    rx <- random ;;
    ry <- random ;;
    push_mesh
      {| position := start;
         rotation := Euler.make (rx * Math_PI) (ry * Math_PI) (lit 0);
         userData := {| targetPosition := Some start;
                        targetRotation := Euler.make (lit 0) (lit 0) (lit 0) |}
      |}).

Definition createObjects : M Component unit :=
  c <- get ;;
  let count := imageCount c in
  scatterLoop count ;;
  treeLoop count ;;
  focusLoop count ;;
  meshLoop count.

(** *** transitionTo *)

Definition with_targetPosition (p : option (Vector3.t num)) (m : Mesh) : Mesh :=
  {| position := position m; rotation := rotation m;
     userData := {| targetPosition := p;
                    targetRotation := targetRotation (userData m) |} |}.

Definition with_targetRotation (r : Euler.t num) (m : Mesh) : Mesh :=
  {| position := position m; rotation := rotation m;
     userData := {| targetPosition := targetPosition (userData m);
                    targetRotation := r |} |}.

(** The body of the loop over [this.meshes]; [targetSet[i]] is [undefined]
    past the end of the array, and [dummy.position.copy] throws on it.
    Only the two calls of [Math.random()] in the source text are drawn here;
    what [new THREE.Object3D()] and [new THREE.Euler()] do inside three.js
    is the host's. *)
Definition retarget (targetSet : list (Vector3.t num)) (lookAtCenter : bool)
           (i : nat) : M Component unit :=
  mesh_update i (with_targetPosition (nth_error targetSet i)) ;;
  targetRot <-
    (if lookAtCenter then
       p <- defined (nth_error targetSet i) ;;
       ret (Object3D_lookAt p (Vector3.make (lit 0) (lit 0) (lit 2500)))
     else
       rx <- random ;;
       ry <- random ;;
       ret (Euler.make (rx * Math_PI) (ry * Math_PI) (lit 0))) ;;
  mesh_update i (with_targetRotation targetRot).

Definition transitionTo (gesture : GestureType) : M Component unit :=
  match gesture with
  | NONE => ret tt
  | _ =>
      c <- get ;;
      let '(targetSet, lookAtCenter) :=
        match gesture with
        | PINCH => (focus (targets c), true)
        | FIST => (tree (targets c), true)
        | _ => (scatter (targets c), false)
        end in
      for_ (length (meshes c)) (retarget targetSet lookAtCenter)
  end.

(** *** animate *)

(** The per-object part of a tick: [position.lerp(targetPos, delta)], which
    throws on an [undefined] target, then the three rotation updates. *)
Definition approach (delta : num) (object : Mesh) : option Mesh :=
  match targetPosition (userData object) with
  | None => None
  | Some targetPos =>
      let targetRot := targetRotation (userData object) in
      let r := rotation object in
      Some
        {| position := Vector3.lerp (position object) targetPos delta;
           rotation :=
             Euler.make
               (Euler.x r + (Euler.x targetRot - Euler.x r) * delta)
               (Euler.y r + (Euler.y targetRot - Euler.y r) * delta)
               (Euler.z r + (Euler.z targetRot - Euler.z r) * delta);
           userData := userData object |}
  end.

(** One tick; [now] is [Date.now()]. *)
Definition animate (now : num) : M Component unit :=
  let delta := lit 0.05 in
  c <- get ;;
  for_ (length (meshes c)) (fun i =>
    object <- mesh i ;;
    moved <- defined (approach delta object) ;;
    mesh_update i (fun _ => moved)) ;;
  let time := now * lit 0.0001 in
  modify (fun c =>
    let p := camera c in
    let px := Vector3.x p + (Math_sin time * lit 100 - Vector3.x p) * lit 0.01 in
    let py := Vector3.y p + (Math_cos time * lit 100 - Vector3.y p) * lit 0.01 in
    with_camera (Vector3.make px py (Vector3.z p)) c).

(** The ticks of a session, one clock reading each.  [animate] asks for
    the next frame in its first statement, before anything can throw, so a
    tick that throws keeps what it wrote and the ticks after it still run. *)
Fixpoint ticks (clock : list num) (c : Component) : Component :=
  match clock with
  | [] => c
  | now :: later => ticks later (store (animate now c))
  end.

(** [ngAfterViewInit], without the renderer set-up. *)
Definition ngAfterViewInit (now : num) : M Component unit :=
  createObjects ;; animate now ;; transitionTo OPEN_PALM.

(** *** The effect of the constructor

    [effect(() => this.transitionTo(this.activeGesture()))] runs once after
    creation and again whenever the version of the signal it read has moved.
    An exception inside it is handed to the error handler and the writes made
    before it stay. *)
Record App : Type := {
  handService : Service num;
  view : Component;
  effectSeen : option nat
}.

Definition effectDirty (a : App) : bool :=
  match effectSeen a with
  | Some n => negb (Nat.eqb n (version (currentGesture (handService a))))
  | None => true
  end.

Definition flushEffects (a : App) : App :=
  if effectDirty a then
    let gesture := currentGesture (handService a) in
    {| handService := handService a;
       view := store (transitionTo (value gesture) (view a));
       effectSeen := Some (version gesture) |}
  else a.

(** The service publishes a gesture and the effects are flushed. *)
Definition gestureEmitted (g : GestureType) (a : App) : App :=
  flushEffects
    {| handService := store (currentGesture_set g (handService a));
       view := view a;
       effectSeen := effectSeen a |}.

End Component.
Arguments UserData num : clear implicits.
Arguments Mesh num : clear implicits.
Arguments Targets num : clear implicits.
Arguments Component num : clear implicits.
Arguments App num : clear implicits.

End Visualizer.

(** ** A concrete component, in exact arithmetic *)

Module Stage.
Import Exact Still Visualizer.
Local Open Scope R_scope.

(** A mesh at rest at [p], as [createObjects] makes them. *)
Definition resting (p : Vector3.t R) : Mesh R :=
  {| position := p;
     rotation := Euler.make 0 0 0;
     userData := {| targetPosition := Some p;
                    targetRotation := Euler.make 0 0 0 |} |}.

(** Two objects and the two slots of each formation. *)
Definition duo : Component R :=
  {| meshes := [ resting (Vector3.make 100 0 0);
                 resting (Vector3.make 0 100 0) ];
     imageCount := 2;
     targets :=
       {| scatter := [ Vector3.make 100 0 0; Vector3.make 0 100 0 ];
          tree := [ Vector3.make 0 (-500) 0; Vector3.make 800 (-480) 0 ];
          focus := [ Vector3.make (-1200) 400 0; Vector3.make 0 400 1200 ] |};
     camera := Vector3.make 0 0 2500;
     drawn := 0 |}.


(** The application at start-up: no gesture yet, the effect not yet run. *)
Definition app : App R :=
  {| handService := HandRecognition.initial; view := duo; effectSeen := None |}.

End Stage.

(** ** Objects in binary64 *)

Module Rounding.
Import Binary64 Visualizer.




End Rounding.

(** ** Concrete hands, in binary64 *)

Module Scenario.
Import HandRecognition.
Import Binary64.
#[local] Set Warnings "-inexact-float".

Definition landmark (px py : float) : NormalizedLandmark float :=
  {| x := px; y := py; z := 0%float |}.

(** A frame of 21 landmarks from the ten the classifier reads; the others
    repeat the wrist. *)
Definition hand (wrist thumbTip indexPip indexTip middlePip middleTip
                 ringPip ringTip pinkyPip pinkyTip : NormalizedLandmark float)
  : list (NormalizedLandmark float) :=
  [ wrist; wrist; wrist; wrist; thumbTip;
    wrist; indexPip; wrist; indexTip;
    wrist; middlePip; wrist; middleTip;
    wrist; ringPip; wrist; ringTip;
    wrist; pinkyPip; wrist; pinkyTip ].

Definition wrist : NormalizedLandmark float := landmark 0.5 0.9.
Definition knuckle : NormalizedLandmark float := landmark 0.5 0.5.
Definition curled : NormalizedLandmark float := landmark 0.5 0.75.
Definition extended : NormalizedLandmark float := landmark 0.5 0.25.
Definition thumbAway : NormalizedLandmark float := landmark 0.25 0.75.

(** Thumb tip (0.50, 0.50) and index tip (0.51, 0.50). *)
Definition pinching : list (NormalizedLandmark float) :=
  hand wrist (landmark 0.5 0.5) knuckle (landmark 0.51 0.5)
       knuckle extended knuckle extended knuckle extended.

Definition fist : list (NormalizedLandmark float) :=
  hand wrist thumbAway knuckle curled knuckle curled knuckle curled
       knuckle curled.

Definition openPalm : list (NormalizedLandmark float) :=
  hand wrist thumbAway knuckle extended knuckle extended knuckle extended
       knuckle extended.

(** Index finger curled, the other three extended, thumb away. *)
Definition pointing : list (NormalizedLandmark float) :=
  hand wrist thumbAway knuckle curled knuckle extended knuckle extended
       knuckle extended.


Definition afterFist : Service float := store (analyzeGesture fist initial).

End Scenario.

(** * Properties of the classifier *)

Module HandRecognitionFacts.
Import HandRecognition.

Lemma GestureType_eqb_eq a b : GestureType_eqb a b = true <-> a = b.
Proof. destruct a, b; simpl; split; congruence. Qed.

Lemma GestureType_eqb_refl a : GestureType_eqb a a = true.
Proof. now destruct a. Qed.

Lemma value_signal_set g sg : value (signal_set g sg) = g.
Proof.
  unfold signal_set.
  destruct (GestureType_eqb (value sg) g) eqn:E; [|reflexivity].
  now apply GestureType_eqb_eq.
Qed.

Lemma signal_set_same sg : signal_set (value sg) sg = sg.
Proof. unfold signal_set. now rewrite GestureType_eqb_refl. Qed.

Section Facts.
Context {num : Type} `{JsNumber num} `{MathAlg num}.
Local Open Scope js_scope.

(** The store after a frame whose thumb and index tips pinch. *)
Definition pinched (t i : NormalizedLandmark num) (s : Service num) : Service num :=
  {| currentGesture := signal_set PINCH (currentGesture s);
     pinchCenter := Some (midpoint t i) |}.

(** The store after a frame that is neither pinch, fist nor open palm. *)
Definition cleared (s : Service num) : Service num :=
  {| currentGesture := currentGesture s; pinchCenter := None |}.

Lemma analyzeGesture_pinch (landmarks : list (NormalizedLandmark num)) (s : Service num) t i :
  nth_error landmarks 4 = Some t ->
  nth_error landmarks 8 = Some i ->
  (planar t i <? lit 0.05) = true ->
  analyzeGesture landmarks s = Ok tt (pinched t i s).
Proof.
  intros Ht Hi Hlt.
  unfold analyzeGesture, bind. rewrite Ht, Hi. simpl. rewrite Hlt.
  reflexivity.
Qed.

Lemma analyzeGesture_no_tips (landmarks : list (NormalizedLandmark num)) (s : Service num) :
  dist (nth_error landmarks 4) (nth_error landmarks 8) = None ->
  analyzeGesture landmarks s = Throw s.
Proof.
  intros Hd. unfold analyzeGesture, bind. rewrite Hd. reflexivity.
Qed.

(** What is left of [analyzeGesture] once the pinch test has failed. *)
Lemma analyzeGesture_no_pinch (landmarks : list (NormalizedLandmark num)) (s : Service num) d :
  dist (nth_error landmarks 4) (nth_error landmarks 8) = Some d ->
  (d <? lit 0.05) = false ->
  analyzeGesture landmarks s =
  (indexClosed <- defined (isFingerClosed landmarks 8 6) ;;
   middleClosed <- defined (isFingerClosed landmarks 12 10) ;;
   ringClosed <- defined (isFingerClosed landmarks 16 14) ;;
   pinkyClosed <- defined (isFingerClosed landmarks 20 18) ;;
   if indexClosed && middleClosed && ringClosed && pinkyClosed then
     currentGesture_set FIST
   else if negb indexClosed && negb middleClosed && negb ringClosed
           && negb pinkyClosed then
     currentGesture_set OPEN_PALM
   else ret tt) (cleared s).
Proof.
  intros Hd Hlt. unfold analyzeGesture, cleared, bind. rewrite Hd. simpl.
  rewrite Hlt. simpl.
  destruct (defined (isFingerClosed landmarks 8 6) _); [|reflexivity].
  destruct (defined (isFingerClosed landmarks 12 10) s0); [|reflexivity].
  destruct (defined (isFingerClosed landmarks 16 14) s1); [|reflexivity].
  destruct (defined (isFingerClosed landmarks 20 18) s2); [|reflexivity].
  now rewrite andb_true_r.
Qed.


Lemma analyzeGesture_no_pinch_store (landmarks : list (NormalizedLandmark num))
      (s : Service num) d :
  dist (nth_error landmarks 4) (nth_error landmarks 8) = Some d ->
  (d <? lit 0.05) = false ->
  pinchCenter (store (analyzeGesture landmarks s)) = None.
Proof.
  intros Hd Hlt. rewrite (analyzeGesture_no_pinch _ _ Hd Hlt).
  unfold bind, defined.
  destruct (isFingerClosed landmarks 8 6) as [c1|]; [|reflexivity].
  destruct (isFingerClosed landmarks 12 10) as [c2|]; [|reflexivity].
  destruct (isFingerClosed landmarks 16 14) as [c3|]; [|reflexivity].
  destruct (isFingerClosed landmarks 20 18) as [c4|]; [|reflexivity].
  destruct c1, c2, c3, c4; reflexivity.
Qed.

Lemma dist_Some (p1 p2 : option (NormalizedLandmark num)) d :
  dist p1 p2 = Some d ->
  exists a b, p1 = Some a /\ p2 = Some b /\ d = planar a b.
Proof.
  destruct p1 as [a|], p2 as [b|]; simpl; try discriminate.
  intros [= <-]. now exists a, b.
Qed.

(** The one-way link between the two registers of the service. *)
Definition centerOnlyWhilePinch (s : Service num) : Prop :=
  pinchCenter s <> None -> value (currentGesture s) = PINCH.

Lemma analyzeGesture_keeps_link (landmarks : list (NormalizedLandmark num))
      (s : Service num) :
  centerOnlyWhilePinch s ->
  centerOnlyWhilePinch (store (analyzeGesture landmarks s)).
Proof.
  intros Hs.
  destruct (dist (nth_error landmarks 4) (nth_error landmarks 8)) as [d|] eqn:Hd.
  - destruct (d <? lit 0.05) eqn:Hlt.
    + destruct (dist_Some _ _ Hd) as (t & i & Ht & Hi & ->).
      rewrite (analyzeGesture_pinch _ s Ht Hi Hlt). simpl.
      intros _. apply value_signal_set.
    + intros Hc. now rewrite (analyzeGesture_no_pinch_store _ s Hd Hlt) in Hc.
  - now rewrite analyzeGesture_no_tips.
Qed.

Lemma session_keeps_link cycles : forall s : Service num,
  centerOnlyWhilePinch s ->
  centerOnlyWhilePinch (store (session cycles s)).
Proof.
  induction cycles as [|[ready hands] rest IH]; intros s Hs; [exact Hs|].
  simpl. unfold bind.
  assert (Hstep : centerOnlyWhilePinch (store (predictWebcam ready hands s))).
  { unfold predictWebcam. destruct ready; [|exact Hs].
    destruct hands as [|landmarks ?]; [exact Hs|].
    now apply analyzeGesture_keeps_link. }
  destruct (predictWebcam ready hands s) as [[] s'|s']; simpl in Hstep.
  - now apply IH.
  - exact Hstep.
Qed.

(** C2.  A frame whose thumb tip (landmark 4) and index tip (landmark 8) are
    at planar distance below 0.05 is classified PINCH, with the pinch centre
    at the midpoint of the two tips, whatever the other landmarks are. *)
Theorem pinch_has_priority (landmarks : list (NormalizedLandmark num))
        (s : Service num) (thumbTip indexTip : NormalizedLandmark num) :
  nth_error landmarks 4 = Some thumbTip ->
  nth_error landmarks 8 = Some indexTip ->
  (planar thumbTip indexTip <? lit 0.05) = true ->
  exists s',
    analyzeGesture landmarks s = Ok tt s' /\
    value (currentGesture s') = PINCH /\
    pinchCenter s' =
      Some {| px := (x thumbTip + x indexTip) / lit 2;
              py := (y thumbTip + y indexTip) / lit 2 |}.
Proof.
  intros Ht Hi Hlt. exists (pinched thumbTip indexTip s).
  split; [now apply analyzeGesture_pinch|].
  split; [apply value_signal_set|reflexivity].
Qed.

(** C1, as amended.  On a frame that passes none of the three tests (pinch
    distance not below 0.05, the four fingers neither all closed nor all
    open) [analyzeGesture] writes no gesture: the gesture signal keeps its
    previous value and the pinch centre is cleared. *)
Theorem ambiguous_pose_keeps_gesture (landmarks : list (NormalizedLandmark num))
        (s : Service num) (pinchDist : num)
        (indexClosed middleClosed ringClosed pinkyClosed : bool) :
  dist (nth_error landmarks 4) (nth_error landmarks 8) = Some pinchDist ->
  (pinchDist <? lit 0.05) = false ->
  isFingerClosed landmarks 8 6 = Some indexClosed ->
  isFingerClosed landmarks 12 10 = Some middleClosed ->
  isFingerClosed landmarks 16 14 = Some ringClosed ->
  isFingerClosed landmarks 20 18 = Some pinkyClosed ->
  indexClosed && middleClosed && ringClosed && pinkyClosed = false ->
  negb indexClosed && negb middleClosed && negb ringClosed
    && negb pinkyClosed = false ->
  analyzeGesture landmarks s =
  Ok tt {| currentGesture := currentGesture s; pinchCenter := None |}.
Proof.
  intros Hd Hlt H1 H2 H3 H4 Hfist Hpalm.
  rewrite (analyzeGesture_no_pinch _ s Hd Hlt).
  unfold bind. rewrite H1, H2, H3, H4. simpl. now rewrite Hfist, Hpalm.
Qed.


(** C4, as amended.  After any number of detection cycles from the initial
    state, a pinch centre that is present implies that the gesture is PINCH:
    whenever the gesture is not PINCH the pinch centre is null.  (The
    gesture can stay PINCH with a null pinch centre.) *)
Theorem pinchCenter_only_while_pinch
        (cycles : list (bool * list (list (NormalizedLandmark num)))) :
  let s := store (session cycles initial) in
  pinchCenter s <> None -> value (currentGesture s) = PINCH.
Proof.
  apply (@session_keeps_link cycles initial). intros Hc. now elim Hc.
Qed.

End Facts.

Import Binary64.
#[local] Set Warnings "-inexact-float".

(** Scenario 1 of the specification: the centre is (0.505, 0.50). *)
Example scenario_pinch :
  analyzeGesture Scenario.pinching initial =
  Ok tt {| currentGesture := {| value := PINCH; version := 1 |};
           pinchCenter := Some {| px := 0.505%float; py := 0.5%float |} |}.
Proof. vm_compute. reflexivity. Qed.

Example scenario_fist :
  value (currentGesture Scenario.afterFist) = FIST.
Proof. vm_compute. reflexivity. Qed.

Example scenario_openPalm :
  value (currentGesture (store (analyzeGesture Scenario.openPalm initial)))
  = OPEN_PALM.
Proof. vm_compute. reflexivity. Qed.

Lemma pinch_has_priority_witness :
  exists s',
    analyzeGesture Scenario.pinching initial = Ok tt s' /\
    value (currentGesture s') = PINCH /\
    pinchCenter s' =
      Some {| px := ((0.5%float + 0.51%float) / lit 2)%js;
              py := ((0.5%float + 0.5%float) / lit 2)%js |}.
Proof.
  apply (@pinch_has_priority float _ _ Scenario.pinching initial
           (Scenario.landmark 0.5%float 0.5%float)
           (Scenario.landmark 0.51%float 0.5%float)).
  - reflexivity.
  - reflexivity.
  - vm_compute. reflexivity.
Defined.

(** C1, counterexample.  After a fist, a hand with only the index finger
    curled is ambiguous, and the gesture is still FIST, not NONE. *)
Lemma ambiguous_pose_not_NONE :
  (exists d, dist (nth_error Scenario.pointing 4) (nth_error Scenario.pointing 8)
             = Some d /\ (d <? lit 0.05)%js = false) /\
  isFingerClosed Scenario.pointing 8 6 = Some true /\
  isFingerClosed Scenario.pointing 12 10 = Some false /\
  isFingerClosed Scenario.pointing 16 14 = Some false /\
  isFingerClosed Scenario.pointing 20 18 = Some false /\
  value (currentGesture
           (store (analyzeGesture Scenario.pointing Scenario.afterFist)))
  <> NONE.
Proof.
  split; [eexists; split; [reflexivity|vm_compute; reflexivity]|].
  repeat split; try (vm_compute; reflexivity).
  vm_compute. discriminate.
Qed.

Lemma ambiguous_pose_keeps_gesture_witness :
  analyzeGesture Scenario.pointing Scenario.afterFist =
  Ok tt {| currentGesture := currentGesture Scenario.afterFist;
           pinchCenter := None |}.
Proof.
  eapply (@ambiguous_pose_keeps_gesture float _ _ Scenario.pointing
            Scenario.afterFist _ true false false false).
  - reflexivity.
  - vm_compute. reflexivity.
  - vm_compute. reflexivity.
  - vm_compute. reflexivity.
  - vm_compute. reflexivity.
  - vm_compute. reflexivity.
  - reflexivity.
  - reflexivity.
Defined.



(** C4, counterexample.  A pinch followed by an ambiguous hand leaves the
    gesture PINCH with the pinch centre null. *)
Lemma pinch_without_center :
  let s := store (session [(true, [Scenario.pinching]);
                           (true, [Scenario.pointing])] initial) in
  value (currentGesture s) = PINCH /\ pinchCenter s = None.
Proof. vm_compute. split; reflexivity. Qed.

Lemma pinchCenter_only_while_pinch_witness :
  let s := store (session [(true, [Scenario.pinching])] initial) in
  pinchCenter s <> None /\ value (currentGesture s) = PINCH.
Proof.
  assert (Hc : pinchCenter
                 (store (session [(true, [Scenario.pinching])] initial))
               <> None) by (vm_compute; discriminate).
  split; [exact Hc|].
  exact (@pinchCenter_only_while_pinch float _ _
           [(true, [Scenario.pinching])] Hc).
Defined.

End HandRecognitionFacts.

(** * Properties of the formations and of the motion *)

Module VisualizerFacts.
Import HandRecognition HandRecognitionFacts Visualizer.

(** A loop whose body keeps an invariant indexed by the counter runs to its
    end and leaves the invariant at the final count. *)
Lemma for_from_invariant {St} (P : nat -> St -> Prop) (body : nat -> M St unit)
      count : forall from s,
  (forall j t, from <= j < from + count -> P j t ->
               exists t', body j t = Ok tt t' /\ P (S j) t') ->
  P from s ->
  exists s', for_from from count body s = Ok tt s' /\ P (from + count) s'.
Proof.
  induction count as [|n IH]; intros from s Hbody Hs.
  - exists s. rewrite Nat.add_0_r. now split.
  - simpl. unfold bind.
    destruct (Hbody from s) as (s1 & E & H1); [lia|trivial|]. rewrite E.
    destruct (IH (S from) s1) as (s2 & E2 & H2); trivial.
    + intros j t Hj. apply Hbody. lia.
    + exists s2. split; trivial.
      now replace (from + S n) with (S from + n) by lia.
Qed.

Lemma length_replace_nth {A} (a : A) l : forall i,
  length (replace_nth i a l) = length l.
Proof.
  induction l as [|b l IH]; intros [|i]; simpl; trivial. now rewrite IH.
Qed.

Lemma nth_error_replace_nth_eq {A} (a : A) l : forall i,
  i < length l -> nth_error (replace_nth i a l) i = Some a.
Proof.
  induction l as [|b l IH]; intros [|i]; simpl; intros Hi; try lia; trivial.
  apply IH. lia.
Qed.

Lemma nth_error_replace_nth_neq {A} (a : A) l : forall i j,
  i <> j -> nth_error (replace_nth i a l) j = nth_error l j.
Proof.
  induction l as [|b l IH]; intros [|i] [|j] Hij; simpl; trivial; try lia.
  apply IH. lia.
Qed.

Lemma replace_nth_twice {A} (a b : A) l : forall i,
  replace_nth i b (replace_nth i a l) = replace_nth i b l.
Proof.
  induction l as [|c l IH]; intros [|i]; simpl; trivial. now rewrite IH.
Qed.

Lemma nth_error_lt {A} (l : list A) i a : nth_error l i = Some a -> i < length l.
Proof. intros E. apply nth_error_Some. now rewrite E. Qed.

Lemma nth_error_defined {A} (l : list A) i :
  i < length l -> exists a, nth_error l i = Some a.
Proof.
  intros Hi. destruct (nth_error l i) as [a|] eqn:E; [now exists a|].
  apply nth_error_None in E. lia.
Qed.

Section Facts.
Context {num : Type} `{JsNumber num} `{MathAlg num} `{MathTrig num} `{Host num}.

(** The rotation [dummy.lookAt(0, 0, 2500)] gives an object placed at [p]. *)
Definition faceCamera (p : Vector3.t num) : Euler.t num :=
  Object3D_lookAt p (Vector3.make (lit 0) (lit 0) (lit 2500)).

(** The rotation built from the two random numbers drawn from the [n]-th on. *)
Definition tumble (n : nat) : Euler.t num :=
  Euler.make (Math_random n * Math_PI)%js (Math_random (S n) * Math_PI)%js
             (lit 0).

(** A mesh with its pose kept and its targets replaced. *)
Definition retargeted (m : Mesh num) (p : option (Vector3.t num))
           (r : Euler.t num) : Mesh num :=
  {| position := position m; rotation := rotation m;
     userData := {| targetPosition := p; targetRotation := r |} |}.

Lemma mesh_update_ok i f (c : Component num) m :
  nth_error (meshes c) i = Some m ->
  mesh_update i f c = Ok tt (with_meshes (replace_nth i (f m) (meshes c)) c).
Proof.
  intros E. unfold mesh_update, mesh, bind, get, defined. now rewrite E.
Qed.

Lemma retarget_lookAt targetSet i (c : Component num) m p :
  nth_error (meshes c) i = Some m ->
  nth_error targetSet i = Some p ->
  retarget targetSet true i c =
  Ok tt (with_meshes
           (replace_nth i (retargeted m (Some p) (faceCamera p)) (meshes c)) c).
Proof.
  intros Em Ep. unfold retarget. unfold bind at 1.
  rewrite (mesh_update_ok i _ c Em). rewrite Ep.
  unfold bind at 1. unfold bind at 1. simpl.
  erewrite mesh_update_ok.
  2:{ simpl. apply nth_error_replace_nth_eq. now apply nth_error_lt in Em. }
  unfold with_meshes. simpl. now rewrite replace_nth_twice.
Qed.

Lemma retarget_random targetSet i (c : Component num) m :
  nth_error (meshes c) i = Some m ->
  retarget targetSet false i c =
  Ok tt {| meshes := replace_nth i (retargeted m (nth_error targetSet i)
                                              (tumble (drawn c))) (meshes c);
           imageCount := imageCount c;
           targets := targets c;
           camera := camera c;
           drawn := S (S (drawn c)) |}.
Proof.
  intros Em. unfold retarget. unfold bind at 1.
  rewrite (mesh_update_ok i _ c Em).
  unfold bind at 1. unfold bind at 1. unfold bind at 1. simpl.
  erewrite mesh_update_ok.
  2:{ simpl. apply nth_error_replace_nth_eq. now apply nth_error_lt in Em. }
  unfold with_meshes. simpl. now rewrite replace_nth_twice.
Qed.


(** The targets the loop of [transitionTo] gives mesh [i]. *)
Definition retargetedAt (targetSet : list (Vector3.t num)) (lookAtCenter : bool)
           (seed i : nat) (m : Mesh num) : Mesh num :=
  retargeted m (nth_error targetSet i)
    (if lookAtCenter then
       match nth_error targetSet i with
       | Some p => faceCamera p
       | None => targetRotation (userData m)
       end
     else tumble (seed + 2 * i)).

Lemma retarget_loop targetSet lookAtCenter (c : Component num) :
  (lookAtCenter = true -> length (meshes c) <= length targetSet) ->
  exists c',
    for_ (length (meshes c)) (retarget targetSet lookAtCenter) c = Ok tt c' /\
    length (meshes c') = length (meshes c) /\
    targets c' = targets c /\
    imageCount c' = imageCount c /\
    camera c' = camera c /\
    drawn c' = (if lookAtCenter then drawn c
                else drawn c + 2 * length (meshes c)) /\
    forall i m, nth_error (meshes c) i = Some m ->
      nth_error (meshes c') i =
      Some (retargetedAt targetSet lookAtCenter (drawn c) i m).
Proof.
  intros Hlen.
  pose (P := fun (j : nat) (t : Component num) =>
    length (meshes t) = length (meshes c) /\
    targets t = targets c /\
    imageCount t = imageCount c /\
    camera t = camera c /\
    drawn t = (if lookAtCenter then drawn c else drawn c + 2 * j) /\
    forall i m, nth_error (meshes c) i = Some m ->
      nth_error (meshes t) i =
      Some (if i <? j then retargetedAt targetSet lookAtCenter (drawn c) i m
            else m)).
  destruct (@for_from_invariant _ P (retarget targetSet lookAtCenter)
              (length (meshes c)) 0 c) as (c' & E & HP).
  - intros j t Hj (Hl & Ht & Hi & Hc & Hd & Hm).
    destruct (nth_error_defined (meshes c) (i := j)) as [m Em]; [lia|].
    assert (Emt : nth_error (meshes t) j = Some m).
    { rewrite (Hm _ _ Em). now rewrite Nat.ltb_irrefl. }
    assert (Hrest : forall X i m0, nth_error (meshes c) i = Some m0 ->
      X = retargetedAt targetSet lookAtCenter (drawn c) j m ->
      nth_error (replace_nth j X (meshes t)) i =
      Some (if i <? S j
            then retargetedAt targetSet lookAtCenter (drawn c) i m0
            else m0)).
    { intros X i m0 Ei ->. destruct (Nat.eq_dec j i) as [<-|Hne].
      - rewrite nth_error_replace_nth_eq by lia.
        replace (j <? S j) with true by (symmetry; apply Nat.ltb_lt; lia).
        congruence.
      - rewrite nth_error_replace_nth_neq by trivial. rewrite (Hm _ _ Ei).
        destruct (i <? j) eqn:Eij, (i <? S j) eqn:EiS; trivial.
        + apply Nat.ltb_lt in Eij. apply Nat.ltb_ge in EiS. lia.
        + apply Nat.ltb_ge in Eij. apply Nat.ltb_lt in EiS. lia. }
    destruct lookAtCenter.
    + destruct (nth_error_defined targetSet (i := j)) as [p Ep];
        [specialize (Hlen eq_refl); lia|].
      rewrite (retarget_lookAt _ _ _ Emt Ep). eexists. split; [reflexivity|].
      unfold P, with_meshes. simpl. rewrite length_replace_nth.
      repeat split; trivial.
      intros i m0 Ei. apply Hrest; trivial.
      unfold retargetedAt. now rewrite Ep.
    + rewrite (retarget_random _ _ _ Emt). eexists. split; [reflexivity|].
      unfold P. simpl. rewrite length_replace_nth.
      repeat split; trivial; [lia|].
      intros i m0 Ei. apply Hrest; trivial.
      unfold retargetedAt. now rewrite Hd.
  - unfold P. repeat split; trivial.
    destruct lookAtCenter; lia.
  - destruct HP as (Hl & Ht & Hi & Hc & Hd & Hm).
    exists c'. repeat split; trivial.
    intros i m Em. rewrite (Hm _ _ Em).
    replace (i <? 0 + length (meshes c)) with true; trivial.
    symmetry. apply Nat.ltb_lt. apply nth_error_lt in Em. lia.
Qed.

(** Every mesh of [c] has, in [c'], its pose kept, its target position at its
    slot of [formation] and the target rotation [rot] gives that slot. *)
Definition retargets (c c' : Component num) (formation : list (Vector3.t num))
           (rot : nat -> Vector3.t num -> Euler.t num) : Prop :=
  length (meshes c') = length (meshes c) /\
  forall i m, nth_error (meshes c) i = Some m ->
    exists p, nth_error formation i = Some p /\
      nth_error (meshes c') i =
      Some {| position := position m; rotation := rotation m;
              userData := {| targetPosition := Some p;
                             targetRotation := rot i p |} |}.

Lemma retarget_loop_retargets targetSet lookAtCenter (c : Component num) :
  length (meshes c) <= length targetSet ->
  exists c',
    for_ (length (meshes c)) (retarget targetSet lookAtCenter) c = Ok tt c' /\
    retargets c c' targetSet
      (fun i p => if lookAtCenter then faceCamera p
                  else tumble (drawn c + 2 * i)).
Proof.
  intros Hlen.
  destruct (@retarget_loop targetSet lookAtCenter c) as (c' & E & Hl & _ & _ & _ & _ & Hm);
    [trivial|].
  exists c'. split; [exact E|]. split; [exact Hl|].
  intros i m Em.
  destruct (nth_error_defined targetSet (i := i)) as [p Ep];
    [apply nth_error_lt in Em; lia|].
  exists p. split; [exact Ep|]. rewrite (Hm _ _ Em).
  unfold retargetedAt, retargeted. rewrite Ep. now destruct lookAtCenter.
Qed.

(** The component holds one mesh per slot of each formation, as
    [createObjects] leaves it. *)
Definition populated (c : Component num) : Prop :=
  length (meshes c) = imageCount c /\
  length (scatter (targets c)) = imageCount c /\
  length (tree (targets c)) = imageCount c /\
  length (focus (targets c)) = imageCount c.

(** C5.  FIST sends every object to its slot of the Tree formation and PINCH
    to its slot of the Focus formation, both with the target rotation that
    faces (0, 0, 2500); OPEN_PALM sends every object to its slot of the
    Scatter formation with a target rotation made of two fresh random
    numbers. *)
Theorem transition_selects_formation (c : Component num) :
  populated c ->
  (exists c', transitionTo FIST c = Ok tt c' /\
              retargets c c' (tree (targets c)) (fun _ p => faceCamera p)) /\
  (exists c', transitionTo PINCH c = Ok tt c' /\
              retargets c c' (focus (targets c)) (fun _ p => faceCamera p)) /\
  (exists c', transitionTo OPEN_PALM c = Ok tt c' /\
              retargets c c' (scatter (targets c))
                        (fun i _ => tumble (drawn c + 2 * i))).
Proof.
  intros (Hm & Hs & Ht & Hf).
  split; [|split].
  - apply (@retarget_loop_retargets (tree (targets c)) true c). lia.
  - apply (@retarget_loop_retargets (focus (targets c)) true c). lia.
  - apply (@retarget_loop_retargets (scatter (targets c)) false c). lia.
Qed.

(** C7.  [transitionTo('NONE')] returns at once: the component, and with it
    every object's target position and rotation, is what it was; the same
    holds when NONE arrives through the gesture signal. *)
Theorem none_is_no_op (c : Component num) (a : App num) :
  transitionTo NONE c = Ok tt c /\
  view (gestureEmitted NONE a) = view a.
Proof.
  split; [reflexivity|].
  unfold gestureEmitted, flushEffects.
  match goal with |- context [if ?b then _ else _] => destruct b end;
    [|reflexivity].
  simpl. now rewrite value_signal_set.
Qed.

Lemma gestureEmitted_settled g (a : App num) :
  value (currentGesture (handService a)) = g ->
  effectSeen a = Some (version (currentGesture (handService a))) ->
  gestureEmitted g a = a.
Proof.
  destruct a as [[sg pc] v seen]. simpl. intros <- ->.
  unfold gestureEmitted, flushEffects, effectDirty. simpl.
  rewrite signal_set_same. now rewrite Nat.eqb_refl.
Qed.

(** C6.  A gesture emitted a second time in a row changes nothing: the
    signal keeps its version, the effect does not run again, and the
    application state, every object's target position and rotation
    included, is the one the first emission left. *)
Theorem repeated_gesture_is_idempotent (g : GestureType) (a : App num) :
  gestureEmitted g (gestureEmitted g a) = gestureEmitted g a /\
  map (fun m => userData m) (meshes (view (gestureEmitted g (gestureEmitted g a))))
  = map (fun m => userData m) (meshes (view (gestureEmitted g a))).
Proof.
  assert (E : gestureEmitted g (gestureEmitted g a) = gestureEmitted g a).
  { apply gestureEmitted_settled.
    - unfold gestureEmitted, flushEffects.
      match goal with |- context [if ?b then _ else _] => destruct b end;
        simpl; apply value_signal_set.
    - unfold gestureEmitted, flushEffects.
      match goal with |- context [if ?b then _ else _] => destruct b eqn:D end;
        simpl; [reflexivity|].
      unfold effectDirty in D. simpl in D.
      destruct (effectSeen a) as [n|]; [|discriminate].
      apply negb_false_iff, Nat.eqb_eq in D. now subst. }
  split; [exact E|now rewrite E].
Qed.


(** Called twice in a row, [transitionTo('OPEN_PALM')] itself draws new
    random numbers for the second round of target rotations; the guard
    against repeated gestures is the signal, not this method. *)
Lemma transitionTo_open_palm_redraws (c : Component num) :
  exists c' c'',
    transitionTo OPEN_PALM c = Ok tt c' /\
    transitionTo OPEN_PALM c' = Ok tt c'' /\
    forall i m, nth_error (meshes c) i = Some m ->
      option_map (fun m' => targetRotation (userData m'))
                 (nth_error (meshes c') i)
      = Some (tumble (drawn c + 2 * i)) /\
      option_map (fun m'' => targetRotation (userData m''))
                 (nth_error (meshes c'') i)
      = Some (tumble (drawn c + 2 * length (meshes c) + 2 * i)).
Proof.
  destruct (@retarget_loop (scatter (targets c)) false c)
    as (c' & E & Hl & Ht & _ & _ & Hd & Hm); [discriminate|].
  destruct (@retarget_loop (scatter (targets c')) false c')
    as (c'' & E' & _ & _ & _ & _ & _ & Hm'); [discriminate|].
  exists c', c''. split; [exact E|]. split; [exact E'|].
  intros i m Em. rewrite (Hm _ _ Em). split; [reflexivity|].
  rewrite (Hm' _ _ (Hm _ _ Em)). simpl. now rewrite Hd.
Qed.

(** *** createObjects *)

(** [Math.random() * 4000 - 2000] on the [n]-th random number. *)
Definition coordinate (n : nat) : num :=
  (Math_random n * lit 4000 - lit 2000)%js.

Definition scatterPoint (n : nat) : Vector3.t num :=
  Vector3.make (coordinate n) (coordinate (S n)) (coordinate (S (S n))).

Lemma scatterLoop_spec count ms ic sc tr fo cam d :
  scatterLoop count
    (Build_Component ms ic (Build_Targets sc tr fo) cam d) =
  Ok tt (Build_Component ms ic
           (Build_Targets
              (sc ++ map (fun i => scatterPoint (d + 3 * i)) (seq 0 count))
              tr fo)
           cam (d + 3 * count)).
Proof.
  pose (P := fun (j : nat) (t : Component num) =>
    t = Build_Component ms ic
          (Build_Targets
             (sc ++ map (fun i => scatterPoint (d + 3 * i)) (seq 0 j)) tr fo)
          cam (d + 3 * j)).
  destruct (@for_from_invariant _ P
              (fun _ => x <- scatterCoordinate ;;
                        y <- scatterCoordinate ;;
                        z <- scatterCoordinate ;;
                        push_scatter (Vector3.make x y z))%js
              count 0 (Build_Component ms ic (Build_Targets sc tr fo) cam d))
    as (c' & E & HP).
  - intros j t _ ->. eexists. split; [reflexivity|].
    unfold P, with_targets, scatterPoint, coordinate.
    rewrite seq_S, map_app, app_assoc. simpl.
    f_equal. lia.
  - unfold P. simpl. rewrite app_nil_r. f_equal. lia.
  - unfold scatterLoop, for_. rewrite E. now rewrite HP.
Qed.

Lemma treeLoop_spec count ms ic sc tr fo cam d :
  treeLoop count
    (Build_Component ms ic (Build_Targets sc tr fo) cam d) =
  Ok tt (Build_Component ms ic
           (Build_Targets sc (tr ++ map (treePoint count) (seq 0 count)) fo)
           cam d).
Proof.
  pose (P := fun (j : nat) (t : Component num) =>
    t = Build_Component ms ic
          (Build_Targets sc (tr ++ map (treePoint count) (seq 0 j)) fo)
          cam d).
  destruct (@for_from_invariant _ P (fun i => push_tree (treePoint count i))
              count 0 (Build_Component ms ic (Build_Targets sc tr fo) cam d))
    as (c' & E & HP).
  - intros j t _ ->. eexists. split; [reflexivity|].
    unfold P. now rewrite seq_S, map_app, app_assoc.
  - unfold P. simpl. now rewrite app_nil_r.
  - unfold treeLoop, for_. rewrite E. now rewrite HP.
Qed.

Lemma focusLoop_spec count ms ic sc tr fo cam d :
  focusLoop count
    (Build_Component ms ic (Build_Targets sc tr fo) cam d) =
  Ok tt (Build_Component ms ic
           (Build_Targets sc tr (fo ++ map focusPoint (seq 0 count)))
           cam d).
Proof.
  pose (P := fun (j : nat) (t : Component num) =>
    t = Build_Component ms ic
          (Build_Targets sc tr (fo ++ map focusPoint (seq 0 j))) cam d).
  destruct (@for_from_invariant _ P (fun i => push_focus (focusPoint i))
              count 0 (Build_Component ms ic (Build_Targets sc tr fo) cam d))
    as (c' & E & HP).
  - intros j t _ ->. eexists. split; [reflexivity|].
    unfold P. now rewrite seq_S, map_app, app_assoc.
  - unfold P. simpl. now rewrite app_nil_r.
  - unfold focusLoop, for_. rewrite E. now rewrite HP.
Qed.

Lemma meshLoop_spec count (c : Component num) :
  count <= length (scatter (targets c)) ->
  exists c',
    meshLoop count c = Ok tt c' /\
    length (meshes c') = length (meshes c) + count /\
    imageCount c' = imageCount c /\
    targets c' = targets c /\
    camera c' = camera c /\
    drawn c' = drawn c + 2 * count.
Proof.
  intros Hlen.
  pose (P := fun (j : nat) (t : Component num) =>
    length (meshes t) = length (meshes c) + j /\
    imageCount t = imageCount c /\
    targets t = targets c /\
    camera t = camera c /\
    drawn t = drawn c + 2 * j).
  unfold meshLoop, for_.
  match goal with |- context [for_from 0 count ?b] =>
    destruct (@for_from_invariant _ P b count 0 c) as (c' & E & HP)
  end.
  - intros j t Hj (Hm & Hi & Ht & Hc & Hd).
    destruct (nth_error_defined (scatter (targets t)) (i := j)) as [p Ep];
      [rewrite Ht; lia|].
    unfold bind, get, defined. rewrite Ep. eexists. split; [reflexivity|].
    unfold P, with_meshes. simpl. rewrite length_app. simpl.
    repeat split; trivial; lia.
  - unfold P. repeat split; lia.
  - exists c'. split; [exact E|]. exact HP.
Qed.

Lemma createObjects_fresh count seed :
  exists c',
    createObjects (fresh count seed) = Ok tt c' /\
    populated c' /\
    imageCount c' = count /\
    scatter (targets c')
    = map (fun i => scatterPoint (seed + 3 * i)) (seq 0 count) /\
    tree (targets c') = map (treePoint count) (seq 0 count) /\
    focus (targets c') = map focusPoint (seq 0 count).
Proof.
  unfold createObjects, fresh. unfold bind at 1. simpl.
  unfold bind at 1. rewrite scatterLoop_spec.
  unfold bind at 1. rewrite treeLoop_spec.
  unfold bind at 1. rewrite focusLoop_spec. simpl.
  match goal with |- context [meshLoop count ?c] =>
    destruct (@meshLoop_spec count c) as (c' & E & Hm & Hi & Ht & _)
  end.
  - simpl. now rewrite length_map, length_seq.
  - exists c'. split; [exact E|]. unfold populated.
    rewrite Hm, Hi, Ht. simpl. rewrite !length_map, !length_seq.
    repeat split; trivial.
Qed.

(** *** animate *)

(** Every mesh has a target position. *)
Definition aimed (c : Component num) : Prop :=
  forall i m, nth_error (meshes c) i = Some m ->
              targetPosition (userData m) <> None.

Lemma approach_defined delta (m : Mesh num) :
  targetPosition (userData m) <> None ->
  exists m', approach delta m = Some m' /\ userData m' = userData m.
Proof.
  intros Hm. unfold approach.
  destruct (targetPosition (userData m)); [|now elim Hm].
  eexists. split; reflexivity.
Qed.

Lemma animate_spec now (c : Component num) :
  aimed c ->
  exists c',
    animate now c = Ok tt c' /\
    length (meshes c') = length (meshes c) /\
    forall i m, nth_error (meshes c) i = Some m ->
      exists m', approach (lit 0.05) m = Some m' /\
                 nth_error (meshes c') i = Some m'.
Proof.
  intros Haim.
  pose (P := fun (j : nat) (t : Component num) =>
    length (meshes t) = length (meshes c) /\
    forall i m, nth_error (meshes c) i = Some m ->
      nth_error (meshes t) i =
      if i <? j then approach (lit 0.05) m else Some m).
  unfold animate. unfold bind at 1. simpl. unfold bind at 1. unfold for_.
  match goal with |- context [for_from 0 _ ?b] =>
    destruct (@for_from_invariant _ P b (length (meshes c)) 0 c)
      as (c' & E & Hl & Hm)
  end.
  - intros j t Hj (Hl & Hm).
    destruct (nth_error_defined (meshes c) (i := j)) as [m Em]; [lia|].
    assert (Emt : nth_error (meshes t) j = Some m).
    { rewrite (Hm _ _ Em). now rewrite Nat.ltb_irrefl. }
    destruct (@approach_defined (lit 0.05) m) as (m' & Ea & _);
      [now apply (Haim j)|].
    unfold bind at 1. unfold mesh, bind at 1, get, defined. rewrite Emt.
    unfold ret at 1. unfold bind at 1. rewrite Ea. unfold ret at 1.
    rewrite (mesh_update_ok j _ t Emt). eexists. split; [reflexivity|].
    unfold P, with_meshes. simpl. rewrite length_replace_nth.
    split; [exact Hl|].
    intros i m0 Ei. destruct (Nat.eq_dec j i) as [<-|Hne].
    + rewrite nth_error_replace_nth_eq by lia.
      replace (j <? S j) with true by (symmetry; apply Nat.ltb_lt; lia).
      congruence.
    + rewrite nth_error_replace_nth_neq by trivial. rewrite (Hm _ _ Ei).
      destruct (i <? j) eqn:Eij, (i <? S j) eqn:EiS; trivial.
      * apply Nat.ltb_lt in Eij. apply Nat.ltb_ge in EiS. lia.
      * apply Nat.ltb_ge in Eij. apply Nat.ltb_lt in EiS. lia.
  - unfold P. split; trivial.
  - rewrite E. eexists. split; [reflexivity|]. simpl.
    split; [exact Hl|].
    intros i m Em.
    destruct (@approach_defined (lit 0.05) m) as (m' & Ea & _);
      [now apply (Haim i)|].
    exists m'. split; [exact Ea|]. rewrite (Hm _ _ Em).
    replace (i <? 0 + length (meshes c)) with true; trivial.
    symmetry. apply Nat.ltb_lt. apply nth_error_lt in Em. lia.
Qed.

(** *** The update of one axis *)








End Facts.

(** *** In exact arithmetic *)

Section ExactFacts.
Import Exact.
Context {alg : MathAlg R} {trig : MathTrig R} {host : Host R}.
Local Open Scope R_scope.






End ExactFacts.

Section Generators.
Import Exact.
Context {alg : MathAlg R} {trig : MathTrig R}.
Local Open Scope R_scope.

Lemma coordinate_range (host : Host R) (n : nat) :
  0 <= @Math_random R host n < 1 -> -2000 <= @coordinate R _ host n <= 2000.
Proof. unfold coordinate, lit. cbn. lra. Qed.

(** A point with every coordinate in [-2000, 2000]. *)
Definition inCube (p : Vector3.t R) : Prop :=
  -2000 <= Vector3.x p <= 2000 /\
  -2000 <= Vector3.y p <= 2000 /\
  -2000 <= Vector3.z p <= 2000.

(** C9.  Two runs of [createObjects] with the same object count, whatever
    random numbers each is given, build the same Tree sequence; the Scatter
    sequence has exactly that many points, each coordinate of each within
    [-2000, 2000]. *)
Theorem formation_generators (host1 host2 : Host R) (count seed1 seed2 : nat) :
  (forall n, 0 <= @Math_random R host1 n < 1) ->
  exists c1 c2,
    @createObjects R _ _ _ host1 (fresh count seed1) = Ok tt c1 /\
    @createObjects R _ _ _ host2 (fresh count seed2) = Ok tt c2 /\
    tree (targets c1) = tree (targets c2) /\
    length (tree (targets c1)) = count /\
    length (scatter (targets c1)) = count /\
    Forall inCube (scatter (targets c1)).
Proof.
  intros Hrandom.
  destruct (@createObjects_fresh R _ alg trig host1 count seed1)
    as (c1 & E1 & _ & _ & Hs & Ht1 & _).
  destruct (@createObjects_fresh R _ alg trig host2 count seed2)
    as (c2 & E2 & _ & _ & _ & Ht2 & _).
  exists c1, c2. split; [exact E1|]. split; [exact E2|].
  split; [congruence|].
  split; [now rewrite Ht1, length_map, length_seq|].
  split; [now rewrite Hs, length_map, length_seq|].
  rewrite Hs. apply Forall_forall. intros p Hp.
  apply in_map_iff in Hp. destruct Hp as (i & <- & _).
  unfold inCube, scatterPoint. cbn [Vector3.x Vector3.y Vector3.z].
  split; [|split]; apply coordinate_range, Hrandom.
Qed.

End Generators.

Section OpenPalm.
Import Exact.
Context {alg : MathAlg R} {host : Host R}.
Local Open Scope R_scope.


End OpenPalm.

Import Exact Still.
#[local] Open Scope R_scope.

Lemma duo_populated : populated Stage.duo.
Proof. repeat split. Qed.

Lemma duo_aimed : aimed Stage.duo.
Proof.
  intros [|[|i]] m E; simpl in E.
  - injection E as <-. discriminate.
  - injection E as <-. discriminate.
  - destruct i; discriminate.
Qed.

Lemma still_random : forall n, 0 <= Math_random n < 1.
Proof. intros n. cbn. lra. Qed.

(** Scenario 3 of the specification: after OPEN_PALM, FIST, NONE, PINCH the
    first object aims at the first slot of Focus. *)
Example scenario_sequence :
  let a := fold_left (fun a g => gestureEmitted g a)
                     [OPEN_PALM; FIST; NONE; PINCH] Stage.app in
  option_map (fun m => targetPosition (userData m))
             (nth_error (meshes (view a)) 0)
  = Some (nth_error (focus (targets Stage.duo)) 0).
Proof. reflexivity. Qed.

Lemma transition_selects_formation_witness :
  let c := Stage.duo in
  populated c /\
  (exists c', transitionTo FIST c = Ok tt c' /\
              retargets c c' (tree (targets c)) (fun _ p => faceCamera p)) /\
  (exists c', transitionTo PINCH c = Ok tt c' /\
              retargets c c' (focus (targets c)) (fun _ p => faceCamera p)) /\
  (exists c', transitionTo OPEN_PALM c = Ok tt c' /\
              retargets c c' (scatter (targets c))
                        (fun i _ => tumble (drawn c + 2 * i))).
Proof.
  split; [exact duo_populated|].
  apply (@transition_selects_formation R _ _ _ Stage.duo).
  exact duo_populated.
Defined.




Import Binary64.



Lemma formation_generators_witness :
  exists c c',
    createObjects (fresh 2 0) = Ok tt c /\
    createObjects (fresh 2 7) = Ok tt c' /\
    tree (targets c) = tree (targets c') /\
    length (tree (targets c)) = 2%nat /\
    length (scatter (targets c)) = 2%nat /\
    Forall inCube (scatter (targets c)).
Proof.
  apply (formation_generators Still.host Still.host 2 0 7).
  exact still_random.
Defined.


End VisualizerFacts.

(** * Further properties of the classifier *)

Module ClassifierLaws.
Import HandRecognition HandRecognitionFacts.

Lemma signal_set_twice g sg : signal_set g (signal_set g sg) = signal_set g sg.
Proof.
  rewrite <- (value_signal_set g sg) at 1. apply signal_set_same.
Qed.

Section Laws.
Context {num : Type} `{JsNumber num} `{MathAlg num}.

(** What the classifier reads of a landmark. *)
Definition planarView (p : NormalizedLandmark num) : num * num := (x p, y p).

(** A cycle in which [analyzeGesture] is called. *)
Definition detects (cycle : bool * list (list (NormalizedLandmark num))) : bool :=
  match cycle with
  | (ready, hands) => ready && negb (Nat.eqb (length hands) 0)
  end.

(** Every frame handed to [analyzeGesture] has its 21 landmarks. *)
Definition complete (cycle : bool * list (list (NormalizedLandmark num))) : Prop :=
  forall landmarks, hd_error (snd cycle) = Some landmarks ->
                    21 <= length landmarks.

Lemma store_bind {St A B} (m : M St A) (k : A -> M St B) s :
  store (bind m k s) =
  match m s with
  | Ok a s' => store (k a s')
  | Throw s' => s'
  end.
Proof. unfold bind. now destruct (m s). Qed.

(** A property of the service kept by every frame is kept by a session. *)
Lemma session_invariant (Q : Service num -> Prop) :
  (forall landmarks s, Q s -> Q (store (analyzeGesture landmarks s))) ->
  forall cycles s, Q s -> Q (store (session cycles s)).
Proof.
  intros Hstep. induction cycles as [|[ready hands] rest IH]; intros s Hs;
    [exact Hs|].
  simpl. rewrite store_bind.
  assert (Hone : Q (store (predictWebcam ready hands s))).
  { unfold predictWebcam. destruct ready; [|exact Hs].
    destruct hands as [|landmarks ?]; [exact Hs|]. now apply Hstep. }
  destruct (predictWebcam ready hands s) as [[] s'|s']; simpl in Hone.
  - now apply IH.
  - exact Hone.
Qed.

Lemma landmark_present (landmarks : list (NormalizedLandmark num)) i :
  i < length landmarks -> exists p, nth_error landmarks i = Some p.
Proof.
  intros Hi. destruct (nth_error landmarks i) as [p|] eqn:E; [now exists p|].
  apply nth_error_None in E. lia.
Qed.

Lemma isFingerClosed_complete (landmarks : list (NormalizedLandmark num))
      tipIdx pipIdx :
  tipIdx < length landmarks -> pipIdx < length landmarks ->
  exists c, isFingerClosed landmarks tipIdx pipIdx = Some c.
Proof.
  intros Ht Hp. unfold isFingerClosed.
  destruct (landmark_present landmarks Ht) as [t ->].
  destruct (landmark_present landmarks Hp) as [p ->].
  destruct (@landmark_present landmarks 0) as [w ->]; [lia|].
  simpl. now eexists.
Qed.

Lemma analyzeGesture_complete (landmarks : list (NormalizedLandmark num)) s :
  21 <= length landmarks ->
  exists s', analyzeGesture landmarks s = Ok tt s'.
Proof.
  intros Hlen.
  destruct (@landmark_present landmarks 4) as [t Et]; [lia|].
  destruct (@landmark_present landmarks 8) as [i Ei]; [lia|].
  destruct (planar t i <? lit 0.05)%js eqn:Hlt.
  - exists (pinched t i s). now apply analyzeGesture_pinch.
  - rewrite (@analyzeGesture_no_pinch _ _ _ landmarks s (planar t i));
      [|now rewrite Et, Ei|exact Hlt].
    destruct (@isFingerClosed_complete landmarks 8 6) as [c1 E1]; try lia.
    destruct (@isFingerClosed_complete landmarks 12 10) as [c2 E2]; try lia.
    destruct (@isFingerClosed_complete landmarks 16 14) as [c3 E3]; try lia.
    destruct (@isFingerClosed_complete landmarks 20 18) as [c4 E4]; try lia.
    unfold bind. rewrite E1, E2, E3, E4. simpl.
    destruct (c1 && c2 && c3 && c4); [now eexists|].
    destruct (negb c1 && negb c2 && negb c3 && negb c4); now eexists.
Qed.


Lemma analyzeGesture_values (landmarks : list (NormalizedLandmark num)) s :
  let after := value (currentGesture (store (analyzeGesture landmarks s))) in
  after = value (currentGesture s) \/ after = PINCH \/ after = FIST
  \/ after = OPEN_PALM.
Proof.
  destruct (dist (nth_error landmarks 4) (nth_error landmarks 8)) as [d|] eqn:Hd.
  - destruct (d <? lit 0.05)%js eqn:Hlt.
    + destruct (dist_Some _ _ Hd) as (t & i & Ht & Hi & ->).
      rewrite (analyzeGesture_pinch _ s Ht Hi Hlt). simpl.
      right. left. apply value_signal_set.
    + rewrite (analyzeGesture_no_pinch _ s Hd Hlt). unfold bind, defined.
      destruct (isFingerClosed landmarks 8 6) as [c1|]; [|now left].
      destruct (isFingerClosed landmarks 12 10) as [c2|]; [|now left].
      destruct (isFingerClosed landmarks 16 14) as [c3|]; [|now left].
      destruct (isFingerClosed landmarks 20 18) as [c4|]; [|now left].
      unfold ret. simpl.
      destruct (c1 && c2 && c3 && c4).
      { right. right. left. simpl. apply value_signal_set. }
      destruct (negb c1 && negb c2 && negb c3 && negb c4).
      { right. right. right. simpl. apply value_signal_set. }
      now left.
  - rewrite analyzeGesture_no_tips by trivial. now left.
Qed.

Lemma planarView_nth (f g : list (NormalizedLandmark num)) :
  map planarView f = map planarView g ->
  forall i, option_map planarView (nth_error f i)
            = option_map planarView (nth_error g i).
Proof. intros E i. rewrite <- !nth_error_map. now rewrite E. Qed.

Lemma dist_planarView (a a' b b' : option (NormalizedLandmark num)) :
  option_map planarView a = option_map planarView a' ->
  option_map planarView b = option_map planarView b' ->
  dist a b = dist a' b'.
Proof.
  destruct a as [[ax ay az]|], a' as [[ax' ay' az']|]; try discriminate;
    destruct b as [[bx by_ bz]|], b' as [[bx' by' bz']|]; try discriminate;
    trivial.
  unfold planarView. simpl. now intros [= -> ->] [= -> ->].
Qed.

Lemma isFingerClosed_planarView (f g : list (NormalizedLandmark num)) :
  map planarView f = map planarView g ->
  forall tipIdx pipIdx,
    isFingerClosed f tipIdx pipIdx = isFingerClosed g tipIdx pipIdx.
Proof.
  intros E tipIdx pipIdx. unfold isFingerClosed.
  rewrite (@dist_planarView (nth_error f tipIdx) (nth_error g tipIdx)
                            (nth_error f 0) (nth_error g 0))
    by now apply planarView_nth.
  rewrite (@dist_planarView (nth_error f pipIdx) (nth_error g pipIdx)
                            (nth_error f 0) (nth_error g 0))
    by now apply planarView_nth.
  reflexivity.
Qed.

(** A hand with its four fingers closed and no pinch is a FIST, and the
    pinch centre is cleared. *)
Theorem closed_hand_is_fist (landmarks : list (NormalizedLandmark num))
        (s : Service num) (pinchDist : num) :
  dist (nth_error landmarks 4) (nth_error landmarks 8) = Some pinchDist ->
  (pinchDist <? lit 0.05)%js = false ->
  isFingerClosed landmarks 8 6 = Some true ->
  isFingerClosed landmarks 12 10 = Some true ->
  isFingerClosed landmarks 16 14 = Some true ->
  isFingerClosed landmarks 20 18 = Some true ->
  exists s',
    analyzeGesture landmarks s = Ok tt s' /\
    value (currentGesture s') = FIST /\
    pinchCenter s' = None.
Proof.
  intros Hd Hlt H1 H2 H3 H4.
  rewrite (analyzeGesture_no_pinch _ s Hd Hlt).
  unfold bind. rewrite H1, H2, H3, H4. simpl.
  eexists. split; [reflexivity|]. simpl.
  split; [apply value_signal_set|reflexivity].
Qed.

(** A hand with its four fingers open and no pinch is an OPEN_PALM, and the
    pinch centre is cleared. *)
Theorem open_hand_is_open_palm (landmarks : list (NormalizedLandmark num))
        (s : Service num) (pinchDist : num) :
  dist (nth_error landmarks 4) (nth_error landmarks 8) = Some pinchDist ->
  (pinchDist <? lit 0.05)%js = false ->
  isFingerClosed landmarks 8 6 = Some false ->
  isFingerClosed landmarks 12 10 = Some false ->
  isFingerClosed landmarks 16 14 = Some false ->
  isFingerClosed landmarks 20 18 = Some false ->
  exists s',
    analyzeGesture landmarks s = Ok tt s' /\
    value (currentGesture s') = OPEN_PALM /\
    pinchCenter s' = None.
Proof.
  intros Hd Hlt H1 H2 H3 H4.
  rewrite (analyzeGesture_no_pinch _ s Hd Hlt).
  unfold bind. rewrite H1, H2, H3, H4. simpl.
  eexists. split; [reflexivity|]. simpl.
  split; [apply value_signal_set|reflexivity].
Qed.

(** The classifier reads x and y only: two frames with the same x and y at
    every landmark, whatever their depths, are classified alike, pinch
    centre included. *)
Theorem classification_ignores_depth (f g : list (NormalizedLandmark num))
        (s : Service num) :
  map planarView f = map planarView g ->
  analyzeGesture f s = analyzeGesture g s.
Proof.
  intros E.
  pose proof (@planarView_nth f g E 4) as H4.
  pose proof (@planarView_nth f g E 8) as H8.
  unfold analyzeGesture.
  rewrite !(@isFingerClosed_planarView f g E).
  destruct (nth_error f 4) as [[tx ty tz]|], (nth_error g 4) as [[tx' ty' tz']|];
    try discriminate H4; trivial;
    destruct (nth_error f 8) as [[ix iy iz]|], (nth_error g 8) as [[ix' iy' iz']|];
    try discriminate H8; trivial.
  unfold planarView in H4, H8. simpl in H4, H8.
  injection H4 as -> ->. injection H8 as -> ->. reflexivity.
Qed.

(** A session whose frames all have their 21 landmarks never throws: the
    detection loop goes on to the last cycle. *)
Theorem complete_frames_never_throw
        (cycles : list (bool * list (list (NormalizedLandmark num))))
        (s : Service num) :
  Forall complete cycles ->
  exists s', session cycles s = Ok tt s'.
Proof.
  intros Hall. revert s.
  induction Hall as [|[ready hands] rest Hc _ IH]; intros s.
  - now exists s.
  - simpl. unfold bind.
    assert (Hone : exists s1, predictWebcam ready hands s = Ok tt s1).
    { unfold predictWebcam. destruct ready; [|now exists s].
      destruct hands as [|landmarks more]; [now exists s|].
      apply analyzeGesture_complete. now apply Hc. }
    destruct Hone as [s1 ->]. apply IH.
Qed.

(** The classifier never writes NONE: once the gesture has left NONE, no
    session brings it back. *)
Theorem gesture_never_returns_to_NONE
        (cycles : list (bool * list (list (NormalizedLandmark num))))
        (s : Service num) :
  value (currentGesture s) <> NONE ->
  value (currentGesture (store (session cycles s))) <> NONE.
Proof.
  apply (@session_invariant (fun s => value (currentGesture s) <> NONE)).
  intros landmarks s0 Hs0.
  destruct (analyzeGesture_values landmarks s0) as [E|[E|[E|E]]];
    rewrite E; trivial; discriminate.
Qed.

(** A frame classified a second time in a row changes nothing: gesture,
    signal version and pinch centre are those the first pass left. *)
Theorem repeated_frame_is_idempotent (landmarks : list (NormalizedLandmark num))
        (s s' : Service num) :
  analyzeGesture landmarks s = Ok tt s' ->
  analyzeGesture landmarks s' = Ok tt s'.
Proof.
  destruct (dist (nth_error landmarks 4) (nth_error landmarks 8)) as [d|] eqn:Hd.
  - destruct (d <? lit 0.05)%js eqn:Hlt.
    + destruct (dist_Some _ _ Hd) as (t & i & Ht & Hi & ->).
      rewrite !(analyzeGesture_pinch _ _ Ht Hi Hlt). intros [= <-].
      unfold pinched. simpl. now rewrite signal_set_twice.
    + rewrite !(analyzeGesture_no_pinch _ _ Hd Hlt). unfold bind, defined.
      destruct (isFingerClosed landmarks 8 6) as [c1|]; [|discriminate].
      destruct (isFingerClosed landmarks 12 10) as [c2|]; [|discriminate].
      destruct (isFingerClosed landmarks 16 14) as [c3|]; [|discriminate].
      destruct (isFingerClosed landmarks 20 18) as [c4|]; [|discriminate].
      unfold ret, currentGesture_set, modify, cleared.
      destruct (c1 && c2 && c3 && c4);
        [|destruct (negb c1 && negb c2 && negb c3 && negb c4)];
        intros [= <-]; simpl; now rewrite ?signal_set_twice.
  - rewrite analyzeGesture_no_tips by trivial. discriminate.
Qed.

(** The cycles in which no hand is detected, or the detector is not ready,
    can be left out of a session: they write nothing. *)
Theorem idle_cycles_are_skipped
        (cycles : list (bool * list (list (NormalizedLandmark num))))
        (s : Service num) :
  session cycles s = session (filter detects cycles) s.
Proof.
  revert s. induction cycles as [|[ready hands] rest IH]; intros s; trivial.
  simpl. destruct ready; simpl.
  - destruct hands as [|landmarks more]; simpl.
    + unfold bind, ret. apply IH.
    + unfold bind. destruct (analyzeGesture landmarks s); trivial.
  - unfold bind, ret. apply IH.
Qed.

End Laws.

Import Binary64.
#[local] Set Warnings "-inexact-float".

(** A frame lifted to depth 1. *)
Definition raised (frame : list (NormalizedLandmark float))
  : list (NormalizedLandmark float) :=
  map (fun p => {| x := x p; y := y p; z := 1%float |}) frame.

Lemma closed_hand_is_fist_witness :
  exists s',
    analyzeGesture Scenario.fist initial = Ok tt s' /\
    value (currentGesture s') = FIST /\
    pinchCenter s' = None.
Proof.
  eapply (@closed_hand_is_fist float _ _ Scenario.fist initial).
  - reflexivity.
  - vm_compute. reflexivity.
  - vm_compute. reflexivity.
  - vm_compute. reflexivity.
  - vm_compute. reflexivity.
  - vm_compute. reflexivity.
Defined.

Lemma open_hand_is_open_palm_witness :
  exists s',
    analyzeGesture Scenario.openPalm Scenario.afterFist = Ok tt s' /\
    value (currentGesture s') = OPEN_PALM /\
    pinchCenter s' = None.
Proof.
  eapply (@open_hand_is_open_palm float _ _ Scenario.openPalm
            Scenario.afterFist).
  - reflexivity.
  - vm_compute. reflexivity.
  - vm_compute. reflexivity.
  - vm_compute. reflexivity.
  - vm_compute. reflexivity.
  - vm_compute. reflexivity.
Defined.

Lemma classification_ignores_depth_witness :
  analyzeGesture (raised Scenario.pinching) initial
  = analyzeGesture Scenario.pinching initial.
Proof.
  apply (@classification_ignores_depth float _ _ (raised Scenario.pinching)
           Scenario.pinching initial).
  reflexivity.
Defined.

Lemma complete_frames_never_throw_witness :
  exists s',
    session [(true, [Scenario.fist]); (true, []); (true, [Scenario.pointing])]
            initial
    = Ok tt s'.
Proof.
  apply (@complete_frames_never_throw float _ _).
  repeat constructor; intros landmarks [= <-]; simpl; lia.
Defined.

Lemma gesture_never_returns_to_NONE_witness :
  value (currentGesture
           (store (session [(true, [Scenario.pointing]); (false, [])]
                           Scenario.afterFist)))
  <> NONE.
Proof.
  apply (@gesture_never_returns_to_NONE float _ _). vm_compute. discriminate.
Defined.

Lemma repeated_frame_is_idempotent_witness :
  analyzeGesture Scenario.pinching
    (store (analyzeGesture Scenario.pinching initial))
  = Ok tt (store (analyzeGesture Scenario.pinching initial)).
Proof.
  apply (@repeated_frame_is_idempotent float _ _ Scenario.pinching initial).
  vm_compute. reflexivity.
Defined.

End ClassifierLaws.

(** * Further properties of the component *)

Module ComponentLaws.
Import HandRecognition HandRecognitionFacts Visualizer VisualizerFacts.
Import ClassifierLaws.

(** ** What a method leaves alone, whether it returns or throws *)

Section Frame.
Context {St : Type}.

(** [m] keeps [Q]: run from a store where [Q] holds, it leaves a store where
    [Q] holds, on either completion. *)
Definition keeps (Q : St -> Prop) {A} (m : M St A) : Prop :=
  forall s, Q s -> Q (store (m s)).

Lemma keeps_ret Q {A} (a : A) : keeps Q (ret a).
Proof. intros s Hs. exact Hs. Qed.

Lemma keeps_throw Q {A} : keeps Q (@throw St A).
Proof. intros s Hs. exact Hs. Qed.

Lemma keeps_defined Q {A} (o : option A) : keeps Q (defined o).
Proof. destruct o; [apply keeps_ret|apply keeps_throw]. Qed.

Lemma keeps_bind Q {A B} (m : M St A) (k : A -> M St B) :
  keeps Q m -> (forall a, keeps Q (k a)) -> keeps Q (bind m k).
Proof.
  intros Hm Hk s Hs. rewrite store_bind. specialize (Hm s Hs).
  destruct (m s) as [a s'|s']; simpl in Hm; [now apply Hk|exact Hm].
Qed.

(** A continuation may use what the first part read from a store where [Q]
    holds. *)
Lemma keeps_bind_get Q {B} (k : St -> M St B) :
  (forall s, Q s -> Q (store (k s s))) -> keeps Q (bind get k).
Proof. intros Hk s Hs. unfold bind, get. now apply Hk. Qed.

Lemma keeps_modify Q (f : St -> St) :
  (forall s, Q s -> Q (f s)) -> keeps Q (modify f).
Proof. intros Hf s Hs. now apply Hf. Qed.

Lemma keeps_for_from Q (body : nat -> M St unit) count : forall from,
  (forall j, keeps Q (body j)) -> keeps Q (for_from from count body).
Proof.
  induction count as [|n IH]; intros from Hbody; simpl.
  - apply keeps_ret.
  - apply keeps_bind; [apply Hbody|]. intros _. now apply IH.
Qed.

End Frame.

Lemma map_replace_nth {A B} (g : A -> B) (a b : A) l : forall i,
  nth_error l i = Some a -> g b = g a ->
  map g (replace_nth i b l) = map g l.
Proof.
  induction l as [|c l IH]; intros [|i]; simpl; try discriminate.
  - now intros [= ->] ->.
  - intros E Hg. now rewrite (IH i E Hg).
Qed.

Section Laws.
Context {num : Type} `{JsNumber num} `{MathAlg num} `{MathTrig num} `{Host num}.

Lemma keeps_random (Q : Component num -> Prop) :
  (forall c, Q c -> Q {| meshes := meshes c; imageCount := imageCount c;
                         targets := targets c; camera := camera c;
                         drawn := S (drawn c) |}) ->
  keeps Q random.
Proof. intros HQ c Hc. now apply HQ. Qed.

Lemma keeps_mesh_update (Q : Component num -> Prop) i f :
  (forall c m, Q c -> nth_error (meshes c) i = Some m ->
               Q (with_meshes (replace_nth i (f m) (meshes c)) c)) ->
  keeps Q (mesh_update i f).
Proof.
  intros HQ c Hc. unfold mesh_update, mesh, bind, get, defined.
  destruct (nth_error (meshes c) i) as [m|] eqn:E; simpl; [|exact Hc].
  now apply HQ.
Qed.

(** The poses, the formations, the object count and the camera of [c]. *)
Definition samePoses (c c' : Component num) : Prop :=
  map (fun m => position m) (meshes c') = map (fun m => position m) (meshes c) /\
  map (fun m => rotation m) (meshes c') = map (fun m => rotation m) (meshes c) /\
  targets c' = targets c /\
  imageCount c' = imageCount c /\
  camera c' = camera c.

(** The targets of the objects, the formations, the object count and the
    count of random numbers drawn of [c]. *)
Definition sameTargets (c c' : Component num) : Prop :=
  map (fun m => userData m) (meshes c') = map (fun m => userData m) (meshes c) /\
  targets c' = targets c /\
  imageCount c' = imageCount c /\
  drawn c' = drawn c.

Lemma retarget_keeps_poses (c : Component num) targetSet lookAtCenter i :
  keeps (samePoses c) (retarget targetSet lookAtCenter i).
Proof.
  assert (Hupd : forall f, (forall m, position (f m) = position m) ->
                           (forall m, rotation (f m) = rotation m) ->
                           keeps (samePoses c) (mesh_update i f)).
  { intros f Hp Hr. apply keeps_mesh_update.
    intros t m (Ep & Er & Et & Ei & Ec) Em. unfold samePoses, with_meshes.
    simpl.
    rewrite (@map_replace_nth _ _ (fun m => position m) m (f m) _ i Em (Hp m)).
    rewrite (@map_replace_nth _ _ (fun m => rotation m) m (f m) _ i Em (Hr m)).
    now repeat split. }
  assert (Hrand : keeps (samePoses c) random).
  { apply keeps_random. intros t Ht. exact Ht. }
  unfold retarget. apply keeps_bind; [now apply Hupd|]. intros _.
  apply keeps_bind.
  - destruct lookAtCenter.
    + apply keeps_bind; [apply keeps_defined|]. intros p. apply keeps_ret.
    + apply keeps_bind; [exact Hrand|]. intros rx.
      apply keeps_bind; [exact Hrand|]. intros ry. apply keeps_ret.
  - intros targetRot. now apply Hupd.
Qed.

(** [transitionTo] writes targets only.  Whatever the gesture and the
    component, and whether it returns or throws, no object is moved or
    turned, and the formations, the object count and the camera are as
    before. *)
Theorem transitionTo_keeps_poses (gesture : GestureType) (c : Component num) :
  samePoses c (store (transitionTo gesture c)).
Proof.
  assert (Hc : samePoses c c) by now repeat split.
  destruct gesture; [exact Hc| | |];
    (unfold transitionTo, bind, get, for_;
     apply keeps_for_from; [intros j; apply retarget_keeps_poses|exact Hc]).
Qed.

Lemma approach_userData delta (m m' : Mesh num) :
  approach delta m = Some m' -> userData m' = userData m.
Proof.
  unfold approach. destruct (targetPosition (userData m)); [|discriminate].
  now intros [= <-].
Qed.

Lemma animate_sameTargets (now : num) (c : Component num) :
  keeps (sameTargets c) (animate now).
Proof.
  unfold animate. apply keeps_bind_get. intros t Ht.
  apply (fun Hm Hk => @keeps_bind _ (sameTargets c) _ _ _ _ Hm Hk t Ht);
    [|intros _; apply keeps_modify].
  - unfold for_. apply keeps_for_from. intros j s Hs.
    unfold mesh. unfold bind, get, defined.
    destruct (nth_error (meshes s) j) as [object|] eqn:Eo; simpl; [|exact Hs].
    destruct (approach (lit 0.05) object) as [moved|] eqn:Ea; simpl;
      [|exact Hs].
    rewrite (mesh_update_ok j _ s Eo). simpl.
    destruct Hs as (Eu & Et & Ei & Ed). unfold sameTargets, with_meshes.
    simpl.
    rewrite (@map_replace_nth _ _ (fun m => userData m) object moved _ j Eo
                              (@approach_userData _ object moved Ea)).
    now repeat split.
  - intros s Hs. exact Hs.
Qed.

(** [animate] never writes a target.  Whatever the component, and whether
    the tick returns or throws on an object without target, every object's
    target position and rotation, the formations, the object count and the
    count of random numbers drawn are as before. *)
Theorem animate_keeps_targets (now : num) (c : Component num) :
  sameTargets c (store (animate now c)).
Proof. apply animate_sameTargets. now repeat split. Qed.


(** ** createObjects, on any component *)

(** The mesh the last loop of [createObjects] makes for the slot [p], with
    the random numbers from the [n]-th on. *)
Definition newborn (p : Vector3.t num) (n : nat) : Mesh num :=
  {| position := p;
     rotation := tumble n;
     userData := {| targetPosition := Some p;
                    targetRotation :=
                      Euler.make (lit 0) (lit 0) (lit 0) |} |}.

Fixpoint newborns (slots : list (Vector3.t num)) (n : nat) : list (Mesh num) :=
  match slots with
  | [] => []
  | p :: rest => newborn p n :: newborns rest (S (S n))
  end.

Lemma newborns_app slots : forall p n,
  newborns (slots ++ [p]) n
  = newborns slots n ++ [newborn p (n + 2 * length slots)].
Proof.
  induction slots as [|q slots IH]; intros p n.
  - simpl. now rewrite Nat.add_0_r.
  - replace (n + 2 * length (q :: slots)) with (S (S n) + 2 * length slots)
      by (simpl; lia).
    simpl. now rewrite IH.
Qed.

Lemma nth_error_newborns slots : forall n i,
  nth_error (newborns slots n) i
  = option_map (fun p => newborn p (n + 2 * i)) (nth_error slots i).
Proof.
  induction slots as [|q slots IH]; intros n [|i]; trivial.
  - simpl. now rewrite Nat.add_0_r.
  - replace (n + 2 * S i) with (S (S n) + 2 * i) by lia.
    simpl. now rewrite IH.
Qed.

Lemma length_newborns slots : forall n,
  length (newborns slots n) = length slots.
Proof. induction slots as [|q slots IH]; intros n; simpl; auto. Qed.

Lemma firstn_snoc {A} (l : list A) : forall j a,
  nth_error l j = Some a -> firstn (S j) l = firstn j l ++ [a].
Proof.
  induction l as [|b l IH]; intros [|j] a; try discriminate.
  - simpl. now intros [= ->].
  - intros E. change (b :: firstn (S j) l = b :: (firstn j l ++ [a])).
    now rewrite (IH j a E).
Qed.

Lemma meshLoop_newborns count (c : Component num) :
  count <= length (scatter (targets c)) ->
  meshLoop count c =
  Ok tt {| meshes := meshes c
                     ++ newborns (firstn count (scatter (targets c))) (drawn c);
           imageCount := imageCount c;
           targets := targets c;
           camera := camera c;
           drawn := drawn c + 2 * count |}.
Proof.
  intros Hlen.
  pose (P := fun (j : nat) (t : Component num) =>
    t = {| meshes := meshes c
                     ++ newborns (firstn j (scatter (targets c))) (drawn c);
           imageCount := imageCount c;
           targets := targets c;
           camera := camera c;
           drawn := drawn c + 2 * j |}).
  unfold meshLoop, for_.
  match goal with |- context [for_from 0 count ?b] =>
    destruct (@for_from_invariant _ P b count 0 c) as (c' & E & HP)
  end.
  - intros j t Hj ->.
    destruct (nth_error_defined (scatter (targets c)) (i := j)) as [p Ep];
      [lia|].
    unfold bind, get, defined. simpl. rewrite Ep.
    eexists. split; [reflexivity|].
    unfold P.
    rewrite (@firstn_snoc _ _ j p Ep), newborns_app, app_assoc.
    rewrite length_firstn, Nat.min_l by lia.
    unfold with_meshes, push_mesh, modify, newborn, tumble. simpl.
    f_equal. lia.
  - unfold P. destruct c. simpl. rewrite app_nil_r. f_equal. lia.
  - rewrite E. now rewrite HP.
Qed.

Lemma createObjects_result (c : Component num) :
  let count := imageCount c in
  exists c',
    createObjects c = Ok tt c' /\
    scatter (targets c')
    = scatter (targets c)
      ++ map (fun i => scatterPoint (drawn c + 3 * i)) (seq 0 count) /\
    tree (targets c')
    = tree (targets c) ++ map (treePoint count) (seq 0 count) /\
    focus (targets c')
    = focus (targets c) ++ map focusPoint (seq 0 count) /\
    meshes c'
    = meshes c
      ++ newborns (firstn count (scatter (targets c')))
                  (drawn c + 3 * count) /\
    imageCount c' = count /\
    camera c' = camera c /\
    drawn c' = drawn c + 5 * count.
Proof.
  destruct c as [ms ic [sc tr fo] cam d]. simpl.
  unfold createObjects. unfold bind at 1. simpl.
  unfold bind at 1. rewrite scatterLoop_spec.
  unfold bind at 1. rewrite treeLoop_spec.
  unfold bind at 1. rewrite focusLoop_spec.
  rewrite meshLoop_newborns.
  - eexists. split; [reflexivity|]. simpl. repeat split; trivial. lia.
  - simpl. rewrite length_app, length_map, length_seq. lia.
Qed.

(** [createObjects] never throws and only appends.  On any component it
    adds [imageCount] points to each formation after those already there,
    and one mesh for each of the first [imageCount] Scatter slots, after
    the meshes already there. *)
Theorem createObjects_appends (c : Component num) :
  let count := imageCount c in
  exists c',
    createObjects c = Ok tt c' /\
    scatter (targets c')
    = scatter (targets c)
      ++ map (fun i => scatterPoint (drawn c + 3 * i)) (seq 0 count) /\
    tree (targets c')
    = tree (targets c) ++ map (treePoint count) (seq 0 count) /\
    focus (targets c')
    = focus (targets c) ++ map focusPoint (seq 0 count) /\
    meshes c'
    = meshes c
      ++ newborns (firstn count (scatter (targets c')))
                  (drawn c + 3 * count) /\
    imageCount c' = count /\
    camera c' = camera c.
Proof.
  destruct (createObjects_result c)
    as (c' & E & Hs & Ht & Hf & Hm & Hi & Hc & _).
  exists c'. now repeat split.
Qed.

Lemma createObjects_fresh_meshes count seed :
  exists c',
    createObjects (fresh count seed) = Ok tt c' /\
    populated c' /\
    camera c' = camera (fresh count seed) /\
    drawn c' = seed + 5 * count /\
    scatter (targets c')
    = map (fun i => scatterPoint (seed + 3 * i)) (seq 0 count) /\
    meshes c' = newborns (scatter (targets c')) (seed + 3 * count).
Proof.
  destruct (createObjects_result (fresh count seed))
    as (c' & E & Hs & Ht & Hf & Hm & Hi & Hc & Hd).
  simpl in *. exists c'. split; [exact E|].
  assert (Hls : length (scatter (targets c')) = count)
    by now rewrite Hs, length_map, length_seq.
  rewrite <- Hls in Hm at 1. rewrite firstn_all in Hm.
  split; [|now repeat split].
  unfold populated. rewrite Hm, length_newborns, Hi, Ht, Hf, Hls.
  rewrite !length_map, !length_seq. now repeat split.
Qed.

(** After [createObjects] on the component as constructed, every object
    is at its own Scatter slot and aims at it, with the target rotation at
    zero. *)
Theorem objects_start_on_scatter (count seed i : nat) :
  i < count ->
  exists c' p,
    createObjects (fresh count seed) = Ok tt c' /\
    nth_error (scatter (targets c')) i = Some p /\
    nth_error (meshes c') i = Some (newborn p (seed + 3 * count + 2 * i)).
Proof.
  intros Hi.
  destruct (createObjects_fresh_meshes count seed)
    as (c' & E & (_ & Hls & _) & _ & _ & Hs & Hm).
  destruct (nth_error_defined (scatter (targets c')) (i := i)) as [p Ep].
  { rewrite Hs, length_map, length_seq. exact Hi. }
  exists c', p. split; [exact E|]. split; [exact Ep|].
  now rewrite Hm, nth_error_newborns, Ep.
Qed.

End Laws.

(** ** Transitions that look at the camera *)

Section LookAt.
Context {num : Type} `{JsNumber num} `{MathTrig num} `{Host num}.

Lemma retarget_loop_again targetSet (c : Component num) :
  length (meshes c) <= length targetSet ->
  exists c',
    for_ (length (meshes c)) (retarget targetSet true) c = Ok tt c' /\
    for_ (length (meshes c')) (retarget targetSet true) c' = Ok tt c' /\
    targets c' = targets c /\
    drawn c' = drawn c.
Proof.
  intros Hlen.
  destruct (@retarget_loop _ _ _ _ targetSet true c)
    as (c' & E & Hl & Ht & Hi & Hc & Hd & Hm); [trivial|].
  destruct (@retarget_loop _ _ _ _ targetSet true c')
    as (c'' & E' & Hl' & Ht' & Hi' & Hc' & Hd' & Hm'); [intros _; lia|].
  exists c'. split; [exact E|]. split; [|now split].
  rewrite E'. f_equal.
  destruct c' as [ms' ic' ts' cam' d'], c'' as [ms'' ic'' ts'' cam'' d''].
  simpl in *. subst. f_equal.
  apply nth_error_ext. intros n.
  destruct (nth_error ms' n) as [m'|] eqn:En.
  - rewrite (Hm' _ _ En).
    destruct (nth_error_defined (meshes c) (i := n)) as [m Em];
      [apply nth_error_lt in En; lia|].
    rewrite (Hm _ _ Em) in En. injection En as <-.
    destruct (nth_error_defined targetSet (i := n)) as [p Ep];
      [apply nth_error_lt in Em; lia|].
    unfold retargetedAt, retargeted. rewrite Ep. reflexivity.
  - apply nth_error_None. apply nth_error_None in En. lia.
Qed.

(** On FIST and on PINCH [transitionTo] itself is idempotent: on a
    populated component a second call with the same gesture returns the
    component the first one left, every target position and rotation as
    they were. *)
Theorem lookAt_transitions_are_idempotent (gesture : GestureType)
        (c : Component num) :
  populated c ->
  gesture = FIST \/ gesture = PINCH ->
  exists c',
    transitionTo gesture c = Ok tt c' /\
    transitionTo gesture c' = Ok tt c'.
Proof.
  intros (Hm & _ & Ht & Hf) [-> | ->].
  - destruct (@retarget_loop_again (tree (targets c)) c)
      as (c' & E & E' & Hts & Hd); [lia|].
    exists c'. split; [exact E|].
    unfold transitionTo, bind, get. now rewrite Hts.
  - destruct (@retarget_loop_again (focus (targets c)) c)
      as (c' & E & E' & Hts & Hd); [lia|].
    exists c'. split; [exact E|].
    unfold transitionTo, bind, get. now rewrite Hts.
Qed.

End LookAt.

(** ** In exact arithmetic *)

Section ExactLaws.
Import Exact.
Context {alg : MathAlg R} {host : Host R}.
Local Open Scope R_scope.

Lemma lerp_at_target (p : Vector3.t R) (alpha : R) : Vector3.lerp p p alpha = p.
Proof. destruct p. unfold Vector3.lerp. cbn. f_equal; ring. Qed.

Lemma newborns_aimed (c : Component R) n :
  meshes c = newborns (scatter (targets c)) n -> aimed c.
Proof.
  intros Hm j m Em. rewrite Hm, nth_error_newborns in Em.
  destruct (nth_error (scatter (targets c)) j); simpl in Em;
    [|discriminate].
  injection Em as <-. discriminate.
Qed.

(** Start-up, from the component as constructed: [ngAfterViewInit] runs to
    its end, leaves one mesh per slot of each formation, and every object
    still at its own Scatter slot, aiming at it with a target rotation of
    two random numbers drawn after those of [createObjects]. *)
Theorem startup_aims_at_scatter (count seed i : nat) (now : R) :
  (i < count)%nat ->
  exists c' p m,
    ngAfterViewInit now (fresh count seed) = Ok tt c' /\
    populated c' /\
    nth_error (scatter (targets c')) i = Some p /\
    nth_error (meshes c') i = Some m /\
    position m = p /\
    userData m = {| targetPosition := Some p;
                    targetRotation := tumble (seed + 5 * count + 2 * i) |}.
Proof.
  intros Hi.
  destruct (createObjects_fresh_meshes count seed)
    as (c1 & E1 & (Hp1 & Hs1 & Ht1 & Hf1) & _ & Hd1 & Hsc & Hm1).
  pose proof (@newborns_aimed c1 _ Hm1) as Haim1.
  destruct (animate_spec now Haim1) as (c2 & E2 & Hl2 & Hm2).
  assert (K : sameTargets c1 (store (animate now c1)))
    by (apply animate_sameTargets; now repeat split).
  rewrite E2 in K.
  destruct K as (_ & Ht2 & Hi2 & Hd2). simpl in Ht2, Hi2, Hd2.
  destruct (@retarget_loop R _ _ _ (scatter (targets c2)) false c2)
    as (c3 & E3 & Hl3 & Ht3 & Hi3 & _ & Hd3 & Hm3); [discriminate|].
  destruct (nth_error_defined (scatter (targets c1)) (i := i)) as [p Ep];
    [rewrite Hsc, length_map, length_seq; exact Hi|].
  assert (Em1 : nth_error (meshes c1) i
                = Some (newborn p (seed + 3 * count + 2 * i)))
    by now rewrite Hm1, nth_error_newborns, Ep.
  destruct (Hm2 _ _ Em1) as (m2 & Ea & Em2).
  unfold approach in Ea. simpl in Ea. injection Ea as <-.
  exists c3, p. eexists.
  split; [unfold ngAfterViewInit, bind; rewrite E1, E2; exact E3|].
  split; [unfold populated; rewrite Hl3, Hl2, Ht3, Ht2, Hi3, Hi2;
          now repeat split|].
  split; [now rewrite Ht3, Ht2|].
  split; [exact (Hm3 _ _ Em2)|].
  unfold retargetedAt, retargeted. simpl.
  split; [apply lerp_at_target|].
  rewrite Ht2, Ep, Hd2, Hd1. reflexivity.
Qed.

(** The camera is within 100 of the axis in x and in y. *)
Definition cameraInBox (c : Component R) : Prop :=
  -100 <= Vector3.x (camera c) <= 100 /\
  -100 <= Vector3.y (camera c) <= 100.

(** The camera is in the box, at depth [depth]. *)
Definition cameraHeld (depth : R) (c : Component R) : Prop :=
  cameraInBox c /\ Vector3.z (camera c) = depth.

Lemma animate_keeps_camera (depth : R) (now : R) :
  keeps (cameraHeld depth) (animate now).
Proof.
  unfold animate. apply keeps_bind_get. intros t Ht.
  apply (fun Hm Hk => @keeps_bind _ (cameraHeld depth) _ _ _ _ Hm Hk t Ht).
  - unfold for_. apply keeps_for_from. intros j.
    apply keeps_bind.
    { unfold mesh. apply keeps_bind_get. intros s Hs.
      now apply keeps_defined. }
    intros object. apply keeps_bind; [apply keeps_defined|].
    intros moved. apply keeps_mesh_update. intros s m Hs _. exact Hs.
  - intros _. apply keeps_modify. intros s ((Hx & Hy) & Hz).
    unfold cameraHeld, cameraInBox, with_camera, lit. cbn.
    pose proof (SIN_bound (now * (1 / 10000))) as Hsin.
    pose proof (COS_bound (now * (1 / 10000))) as Hcos.
    repeat split; trivial; lra.
Qed.

(** Through any number of ticks, whether each returns or throws, a camera
    that starts within 100 of the axis in x and y stays there, and its depth
    is never written. *)
Theorem camera_stays_in_box (clock : list R) (c : Component R) :
  cameraInBox c ->
  cameraInBox (ticks clock c) /\
  Vector3.z (camera (ticks clock c)) = Vector3.z (camera c).
Proof.
  intros Hbox.
  assert (K : forall t, cameraHeld (Vector3.z (camera c)) t ->
                        cameraHeld (Vector3.z (camera c)) (ticks clock t)).
  { induction clock as [|now later IH]; intros t Ht; [exact Ht|].
    simpl. apply IH. now apply animate_keeps_camera. }
  apply K. now split.
Qed.

(** ** The shapes of Tree and Focus *)

Lemma floor_tenth (i : nat) :
  Int_part (IZR (Z.of_nat i) / (10 / 1)) = Z.of_nat (i / 10).
Proof.
  symmetry. apply Int_part_spec.
  pose proof (Nat.div_mod_eq i 10) as E.
  pose proof (Nat.mod_upper_bound i 10) as Hm.
  rewrite <- !INR_IZR_INZ.
  assert (Ei : INR i = 10 * INR (i / 10) + INR (i mod 10)).
  { rewrite E at 1. rewrite plus_INR, mult_INR. simpl. lra. }
  assert (H0 : 0 <= INR (i mod 10)) by apply pos_INR.
  assert (H10 : INR (i mod 10) < 10).
  { replace 10 with (INR 10) by (simpl; lra). apply lt_INR. lia. }
  rewrite Ei. lra.
Qed.

(** The Tree slots rise by 20 per index from -500, so no two of them
    coincide; every one lies within 800 of the vertical axis. *)
Theorem tree_slots (count seed : nat) :
  exists c',
    createObjects (fresh count seed) = Ok tt c' /\
    NoDup (tree (targets c')) /\
    forall i p, nth_error (tree (targets c')) i = Some p ->
      Vector3.y p = 20 * INR i - 500 /\
      Vector3.x p * Vector3.x p + Vector3.z p * Vector3.z p <= 800 * 800.
Proof.
  destruct (createObjects_fresh count seed)
    as (c' & E & _ & _ & _ & Ht & _).
  exists c'. split; [exact E|]. rewrite Ht. split.
  - apply NoDup_map_NoDup_ForallPairs; [|apply seq_NoDup].
    intros a b _ _ Eab. apply (f_equal Vector3.y) in Eab.
    unfold treePoint, lit, of_nat in Eab. cbn in Eab.
    assert (Ez : IZR (Z.of_nat a) = IZR (Z.of_nat b)) by lra.
    apply eq_IZR in Ez. lia.
  - intros i p Ep. rewrite nth_error_map, nth_error_seq in Ep.
    destruct (i <? count)%nat; [|discriminate]. injection Ep as <-.
    unfold treePoint, lit, of_nat. cbn. rewrite <- INR_IZR_INZ.
    split; [lra|].
    match goal with
    | |- context [_ * cos ?t * sin ?f] => set (theta := t); set (phi := f)
    end.
    pose proof (sin2_cos2 theta) as Hth. pose proof (sin2_cos2 phi) as Hph.
    unfold Rsqr in Hth, Hph.
    replace (800 / 1 * cos theta * sin phi * (800 / 1 * cos theta * sin phi)
             + 800 / 1 * sin theta * sin phi * (800 / 1 * sin theta * sin phi))
      with (800 * 800 * (sin phi * sin phi)
            * (sin theta * sin theta + cos theta * cos theta)) by field.
    rewrite Hth. nra.
Qed.

(** The Focus slots come in rows of ten, slot [i] at height
    400 - 180 * (i / 10), each within 1200 of the origin in x and in z. *)
Theorem focus_slots (count seed : nat) :
  exists c',
    createObjects (fresh count seed) = Ok tt c' /\
    forall i p, nth_error (focus (targets c')) i = Some p ->
      Vector3.y p = 400 - 180 * INR (i / 10) /\
      -1200 <= Vector3.x p <= 1200 /\
      -1200 <= Vector3.z p <= 1200.
Proof.
  destruct (createObjects_fresh count seed)
    as (c' & E & _ & _ & _ & _ & Hf).
  exists c'. split; [exact E|]. rewrite Hf.
  intros i p Ep. rewrite nth_error_map, nth_error_seq in Ep.
  destruct (i <? count)%nat; [|discriminate]. injection Ep as <-.
  unfold focusPoint, lit, of_nat. cbn -[Nat.div]. split.
  - rewrite floor_tenth, <- INR_IZR_INZ. lra.
  - match goal with |- context [cos ?t] => set (theta := t) end.
    pose proof (COS_bound theta) as Hcos.
    pose proof (SIN_bound theta) as Hsin.
    split; lra.
Qed.

End ExactLaws.

Import Exact Still.
#[local] Open Scope R_scope.

Lemma objects_start_on_scatter_witness :
  exists c' p,
    createObjects (fresh 3 0) = Ok tt c' /\
    nth_error (scatter (targets c')) 2 = Some p /\
    nth_error (meshes c') 2 = Some (newborn p (0 + 3 * 3 + 2 * 2)).
Proof. apply (@objects_start_on_scatter R _ _ _ _ 3 0 2). lia. Defined.

Lemma startup_aims_at_scatter_witness :
  exists c' p m,
    ngAfterViewInit 16 (fresh 3 0) = Ok tt c' /\
    populated c' /\
    nth_error (scatter (targets c')) 2 = Some p /\
    nth_error (meshes c') 2 = Some m /\
    position m = p /\
    userData m = {| targetPosition := Some p;
                    targetRotation := tumble (0 + 5 * 3 + 2 * 2) |}.
Proof. apply (@startup_aims_at_scatter _ _ 3 0 2 16). lia. Defined.

Lemma lookAt_transitions_are_idempotent_witness :
  exists c',
    transitionTo FIST Stage.duo = Ok tt c' /\
    transitionTo FIST c' = Ok tt c'.
Proof.
  apply (@lookAt_transitions_are_idempotent R _ _ _ FIST Stage.duo).
  - exact duo_populated.
  - now left.
Defined.

Lemma camera_stays_in_box_witness :
  cameraInBox (ticks [0; 16; 33] Stage.duo) /\
  Vector3.z (camera (ticks [0; 16; 33] Stage.duo))
  = Vector3.z (camera Stage.duo).
Proof.
  apply (camera_stays_in_box [0; 16; 33]).
  unfold cameraInBox. simpl. lra.
Defined.

End ComponentLaws.

(** * From the frame to the targets *)

Module Pipeline.
Import HandRecognition HandRecognitionFacts Visualizer VisualizerFacts.
Import ClassifierLaws.

Section Pipeline.
Context {num : Type} `{JsNumber num} `{MathAlg num} `{MathTrig num} `{Host num}.

(** One detection cycle of the application: [predictWebcam] runs on the
    service, then the effect of the component is flushed. *)
Definition detectionCycle (ready : bool)
           (hands : list (list (NormalizedLandmark num))) (a : App num)
  : App num :=
  flushEffects
    {| handService := store (predictWebcam ready hands (handService a));
       view := view a;
       effectSeen := effectSeen a |}.

(** The effect has run on the current version of the gesture signal. *)
Definition settled (a : App num) : Prop :=
  effectSeen a = Some (version (currentGesture (handService a))).

Lemma analyzeGesture_signal (landmarks : list (NormalizedLandmark num)) s :
  exists g,
    currentGesture (store (analyzeGesture landmarks s))
    = signal_set g (currentGesture s).
Proof.
  destruct (dist (nth_error landmarks 4) (nth_error landmarks 8)) as [d|] eqn:Hd.
  - destruct (d <? lit 0.05)%js eqn:Hlt.
    + destruct (dist_Some _ _ Hd) as (t & i & Ht & Hi & ->).
      rewrite (analyzeGesture_pinch _ s Ht Hi Hlt). now exists PINCH.
    + rewrite (analyzeGesture_no_pinch _ s Hd Hlt). unfold bind, defined.
      destruct (isFingerClosed landmarks 8 6) as [c1|];
        [|exists (value (currentGesture s)); now rewrite signal_set_same].
      destruct (isFingerClosed landmarks 12 10) as [c2|];
        [|exists (value (currentGesture s)); now rewrite signal_set_same].
      destruct (isFingerClosed landmarks 16 14) as [c3|];
        [|exists (value (currentGesture s)); now rewrite signal_set_same].
      destruct (isFingerClosed landmarks 20 18) as [c4|];
        [|exists (value (currentGesture s)); now rewrite signal_set_same].
      unfold ret. simpl.
      destruct (c1 && c2 && c3 && c4); [now exists FIST|].
      destruct (negb c1 && negb c2 && negb c3 && negb c4);
        [now exists OPEN_PALM|].
      exists (value (currentGesture s)). simpl. now rewrite signal_set_same.
  - rewrite analyzeGesture_no_tips by trivial.
    exists (value (currentGesture s)). now rewrite signal_set_same.
Qed.

Lemma predictWebcam_signal ready
      (hands : list (list (NormalizedLandmark num))) s :
  exists g,
    currentGesture (store (predictWebcam ready hands s))
    = signal_set g (currentGesture s).
Proof.
  unfold predictWebcam.
  destruct ready;
    [|exists (value (currentGesture s)); now rewrite signal_set_same].
  destruct hands as [|landmarks more];
    [exists (value (currentGesture s)); now rewrite signal_set_same|].
  apply analyzeGesture_signal.
Qed.

Lemma detectionCycle_view (ready : bool)
        (hands : list (list (NormalizedLandmark num))) (a : App num) :
  settled a ->
  let before := value (currentGesture (handService a)) in
  let after :=
    value (currentGesture
             (store (predictWebcam ready hands (handService a)))) in
  settled (detectionCycle ready hands a) /\
  view (detectionCycle ready hands a)
  = if GestureType_eqb before after then view a
    else store (transitionTo after (view a)).
Proof.
  intros Hset. unfold settled in Hset. cbv zeta.
  destruct (predictWebcam_signal ready hands (handService a)) as [g Eg].
  unfold detectionCycle, flushEffects, effectDirty, settled. simpl.
  rewrite Hset, !Eg, value_signal_set. unfold signal_set.
  destruct (GestureType_eqb (value (currentGesture (handService a))) g) eqn:E.
  - rewrite Nat.eqb_refl. simpl. rewrite Eg. unfold signal_set.
    rewrite E. now split.
  - simpl.
    replace (version (currentGesture (handService a))
             =? S (version (currentGesture (handService a))))%nat
      with false by (symmetry; apply Nat.eqb_neq; lia).
    simpl. rewrite Eg. unfold signal_set. rewrite E. now split.
Qed.

(** The controller follows the classifier, change by change.  In an
    application whose effect has run, a detection cycle calls
    [transitionTo], with the new gesture, exactly when the cycle has changed
    the gesture; otherwise the component is untouched.  The effect has run
    again afterwards. *)
Theorem controller_follows_classifier (ready : bool)
        (hands : list (list (NormalizedLandmark num))) (a : App num) :
  settled a ->
  let before := value (currentGesture (handService a)) in
  let after :=
    value (currentGesture
             (store (predictWebcam ready hands (handService a)))) in
  settled (detectionCycle ready hands a) /\
  view (detectionCycle ready hands a)
  = if GestureType_eqb before after then view a
    else store (transitionTo after (view a)).
Proof. apply detectionCycle_view. Qed.

Lemma flushEffects_settled (a : App num) : settled (flushEffects a).
Proof.
  unfold flushEffects, effectDirty, settled.
  destruct (effectSeen a) as [n|] eqn:E; simpl; trivial.
  destruct (n =? version (currentGesture (handService a)))%nat eqn:En;
    simpl; trivial.
  rewrite E. f_equal. now apply Nat.eqb_eq.
Qed.

(** A pinch reaches the objects.  In a populated application whose effect
    has run and whose gesture is not PINCH, a cycle on a frame whose thumb
    and index tips are nearer than 0.05 leaves every object aiming at its
    slot of Focus, facing (0, 0, 2500). *)
Theorem pinch_retargets_to_focus
        (landmarks : list (NormalizedLandmark num))
        (more : list (list (NormalizedLandmark num)))
        (thumbTip indexTip : NormalizedLandmark num) (a : App num) :
  settled a ->
  populated (view a) ->
  value (currentGesture (handService a)) <> PINCH ->
  nth_error landmarks 4 = Some thumbTip ->
  nth_error landmarks 8 = Some indexTip ->
  (planar thumbTip indexTip <? lit 0.05)%js = true ->
  retargets (view a) (view (detectionCycle true (landmarks :: more) a))
            (focus (targets (view a))) (fun _ p => faceCamera p).
Proof.
  intros Hset (Hm & _ & _ & Hf) Hnot Ht Hi Hlt.
  destruct (@detectionCycle_view true (landmarks :: more) a Hset)
    as (_ & ->).
  simpl. rewrite (analyzeGesture_pinch _ _ Ht Hi Hlt). simpl.
  rewrite value_signal_set.
  destruct (GestureType_eqb (value (currentGesture (handService a))) PINCH)
    eqn:E; [now apply GestureType_eqb_eq in E|].
  destruct (@retarget_loop_retargets _ _ _ _ (focus (targets (view a))) true
                                     (view a)) as (c' & E' & Hr); [lia|].
  unfold transitionTo, bind, get. rewrite E'. exact Hr.
Qed.

End Pipeline.

Import Exact Still.
#[local] Open Scope R_scope.

(** A hand whose 21 landmarks coincide: thumb and index tips touch. *)
Definition touching : list (NormalizedLandmark R) :=
  repeat {| x := 0; y := 0; z := 0 |} 21.

(** The two-object application once its effect has run on NONE. *)
Definition started : App R :=
  {| handService := initial; view := Stage.duo; effectSeen := Some 0%nat |}.

Lemma pow_two (b : R) : Exact.pow b (2 / 1) = b * b.
Proof.
  unfold Exact.pow.
  assert (E : Int_part (2 / 1) = 2%Z) by (symmetry; apply Int_part_spec; lra).
  rewrite E. destruct (Req_EM_T (2 / 1) 2) as [_|n]; [|exfalso; apply n; lra].
  simpl. ring.
Qed.

Lemma touching_pinches :
  (planar {| x := 0; y := 0; z := 0 |} {| x := 0; y := 0; z := 0 |}
   <? lit 0.05)%js = true.
Proof.
  unfold planar, lit. cbn -[Exact.pow]. rewrite !pow_two.
  replace ((0 - 0) * (0 - 0) + (0 - 0) * (0 - 0)) with 0 by ring.
  rewrite sqrt_0. unfold Exact.ltb.
  destruct (Rlt_dec 0 (5 / 100)) as [_|n]; [reflexivity|exfalso; apply n; lra].
Qed.

Lemma controller_follows_classifier_witness :
  let before := value (currentGesture (handService started)) in
  let after :=
    value (currentGesture
             (store (predictWebcam true [touching] (handService started)))) in
  settled (detectionCycle true [touching] started) /\
  view (detectionCycle true [touching] started)
  = if GestureType_eqb before after then view started
    else store (transitionTo after (view started)).
Proof.
  apply (@controller_follows_classifier R _ _ _ _ true [touching] started).
  reflexivity.
Defined.

Lemma pinch_retargets_to_focus_witness :
  retargets (view started) (view (detectionCycle true [touching] started))
            (focus (targets (view started))) (fun _ p => faceCamera p).
Proof.
  apply (@pinch_retargets_to_focus R _ _ _ _ touching []
           {| x := 0; y := 0; z := 0 |} {| x := 0; y := 0; z := 0 |} started).
  - reflexivity.
  - exact duo_populated.
  - simpl. discriminate.
  - reflexivity.
  - reflexivity.
  - exact touching_pinches.
Defined.

End Pipeline.
